(** * Schema extraction: discovery of a schema tree and its flattening

    A shallow embedding of [SchemaExtractionTool] (schema-extraction-tool.ts):
    the type sampler [getFieldType], the derivation of sub-fields from
    documents ([getSubFields], [getSchemaFromArrayDocs]), the discovery
    that queries the document store ([getSchemaFromSubDocs], [getSchema],
    [generateSchemaForAllCollections]), the flattener ([flattenSchema]) and
    the options handling of [connect]. *)

From Stdlib Require Import String Ascii List ZArith Bool Lia.
From stdpp Require Import base option list strings pretty gmap fin_maps.

Set Warnings "-register-all".
Open Scope string_scope.

(** ** Values *)

(** A document value as the driver hands it to the tool.  A number keeps an
    integer payload only: no function below looks at it.  A string is
    written in UTF-8, as the literals of this file are.  An object lists
    the properties that [for (key in doc)] enumerates on it, in that order:
    its own enumerable ones, and those it inherits, as the method
    properties of a driver object.  A function, a bigint and a symbol carry
    nothing the tool reads. *)
Inductive Value : Type :=
| VUndefined
| VNull
| VBoolean (b : bool)
| VNumber (n : Z)
| VString (s : string)
| VArray (elems : list Value)
| VObject (props : list (string * Value))
| VFunction
| VBigInt (n : Z)
| VSymbol.

(** A node of the schema tree.  [subFields = None] is the property holding
    [undefined]. *)
Inductive FieldSchema : Type :=
  mkField {
    name : string;
    types : list string;
    subFields : option (list FieldSchema)
  }.

(** ** Type sampler *)

(** [Array.isArray(value)] *)
Definition isArray (value : Value) : bool :=
  match value with VArray _ => true | _ => false end.

(** [typeof value] *)
Definition typeof (value : Value) : string :=
  match value with
  | VUndefined => "undefined"
  | VNull => "object"
  | VBoolean _ => "boolean"
  | VNumber _ => "number"
  | VString _ => "string"
  | VArray _ => "object"
  | VObject _ => "object"
  | VFunction => "function"
  | VBigInt _ => "bigint"
  | VSymbol => "symbol"
  end.

Definition getFieldType (value : Value) : string :=
  if isArray value then "array" else typeof value.

(** ** Enumeration of a document's keys *)

Section Indexed.
Context {A B : Type} (f : nat -> A -> B).

(** The elements of a list with their positions, counted from [i]. *)
Fixpoint mapFrom (i : nat) (l : list A) : list B :=
  match l with
  | [] => []
  | x :: rest => f i x :: mapFrom (S i) rest
  end.
End Indexed.

(** A continuation byte of UTF-8: [10xxxxxx]. *)
Definition isContinuation (b : ascii) : bool :=
  (128 <=? N_of_ascii b)%N && (N_of_ascii b <? 192)%N.

(** A surrogate code unit [u], written as the three bytes that spell a
    code point of that value. *)
Definition surrogateUnit (u : N) : string :=
  String (ascii_of_N (224 + u / 4096))
    (String (ascii_of_N (128 + (u / 64) mod 64))
       (String (ascii_of_N (128 + u mod 64)) EmptyString)).

(** The UTF-16 code units of a string, each as a string of its own: what
    [s[i]] gives for the indices [for (key in s)] enumerates.  A character
    of one, two or three bytes of UTF-8 is one code unit; a character of
    four bytes is a pair of surrogates.  A byte that starts no well-formed
    character is taken as a unit by itself. *)
Fixpoint codeUnits (s : string) : list string :=
  match s with
  | EmptyString => []
  | String b0 rest =>
      let alone := String b0 EmptyString :: codeUnits rest in
      let n0 := N_of_ascii b0 in
      if (n0 <? 192)%N then alone
      else
        match rest with
        | String b1 rest1 =>
            if negb (isContinuation b1) then alone
            else if (n0 <? 224)%N
            then String b0 (String b1 EmptyString) :: codeUnits rest1
            else
              match rest1 with
              | String b2 rest2 =>
                  if negb (isContinuation b2) then alone
                  else if (n0 <? 240)%N
                  then String b0 (String b1 (String b2 EmptyString)) :: codeUnits rest2
                  else
                    match rest2 with
                    | String b3 rest3 =>
                        if negb (isContinuation b3) || (248 <=? n0)%N then alone
                        else
                          let v := ((n0 mod 8) * 262144 + (N_of_ascii b1 mod 64) * 4096 +
                                    (N_of_ascii b2 mod 64) * 64 + N_of_ascii b3 mod 64
                                    - 65536)%N in
                          surrogateUnit (55296 + v / 1024) ::
                          surrogateUnit (56320 + v mod 1024) :: codeUnits rest3
                    | EmptyString => alone
                    end
              | EmptyString => alone
              end
        | EmptyString => alone
        end
  end.

(** The index [i] as a property key. *)
Definition indexKey (i : nat) : string := pretty i.

(** [for (const key in doc)] paired with [doc[key]]: the properties of an
    object, the indices of an array, the indices of a string (a string is
    enumerated through its wrapper object, one key per UTF-16 code unit);
    nothing for [null], [undefined], a number, a boolean, a bigint, a
    symbol or a function. *)
Definition forIn (doc : Value) : list (string * Value) :=
  match doc with
  | VObject props => props
  | VArray elems => mapFrom (fun i x => (indexKey i, x)) 0 elems
  | VString s => mapFrom (fun i c => (indexKey i, VString c)) 0 (codeUnits s)
  | _ => []
  end.

(** ** Derivation of sub-fields *)

(** The test on the first element in [getSubFields]:
    [Array.isArray(firstElement) || typeof firstElement === 'object']. *)
Definition isComposite (firstElement : Value) : bool :=
  isArray firstElement || (typeof firstElement =? "object").

(** [getSubFields(value, getFieldType(value), depth)], by recursion on the
    value.  The loop of [getSchemaFromArrayDocs] is written out per kind of
    document so that every recursive call is on a part of [value];
    [getSubFieldsOf_eq] below gives the equation in the source's terms. *)
Fixpoint getSubFieldsOf (value : Value) (depth : nat) {struct value}
  : option (list FieldSchema) :=
  let entry (depth' : nat) (key : string) (v : Value) : FieldSchema :=
    mkField key [getFieldType v] (getSubFieldsOf v depth') in
  let leaf (key : string) (v : Value) : FieldSchema :=
    mkField key [getFieldType v] None in
  let fromDoc (depth' : nat) (doc : Value) : list FieldSchema :=
    match doc with
    | VObject props => map (fun kv => entry depth' (fst kv) (snd kv)) props
    | VArray elems => mapFrom (fun i x => entry depth' (indexKey i) x) 0 elems
    | VString s => mapFrom (fun i c => leaf (indexKey i) (VString c)) 0 (codeUnits s)
    | _ => []
    end in
  match value with
  | VArray elems =>
      match elems with
      | [] => None
      | firstElement :: _ =>
          if isComposite firstElement
          then Some (flat_map (fromDoc (depth + 1)) elems)
          else None
      end
  | VObject props =>
      Some (map (fun kv => entry (depth + 1) (fst kv) (snd kv)) props)
  | VNull => Some []
  | _ => None
  end.

(** One node per key of every document, in order.  The sub-fields are
    those of [getSubFields(value, fieldType, depth)], which
    [getSubFieldsOf] computes ([getSchemaFromArrayDocs_eq]). *)
Definition getSchemaFromArrayDocs (arrayDocs : list Value) (depth : nat)
  : list FieldSchema :=
  flat_map
    (fun doc =>
       map (fun kv =>
              let key := fst kv in
              let value := snd kv in
              let fieldType := getFieldType value in
              let subFields := getSubFieldsOf value depth in
              mkField key [fieldType] subFields)
           (forIn doc))
    arrayDocs.

(** [getSubFields(value, fieldType, depth)].  Its only call site passes
    [fieldType = getFieldType(value)], so that ['array'] comes with an
    array: for another value under ['array'] the length test is taken to
    fail. *)
Definition getSubFields (value : Value) (fieldType : string) (depth : nat)
  : option (list FieldSchema) :=
  match value with
  | VArray ((firstElement :: _) as elems) =>
      if fieldType =? "array" then
        if isComposite firstElement
        then Some (getSchemaFromArrayDocs elems (depth + 1))
        else None
      else if fieldType =? "object"
           then Some (getSchemaFromArrayDocs [value] (depth + 1))
           else None
  | _ =>
      if fieldType =? "object"
      then Some (getSchemaFromArrayDocs [value] (depth + 1))
      else None
  end.

(** ** The document store *)

(** The outcome of an awaited call: the promise resolves with a value or
    rejects with an error. *)
Definition Err := string.

Inductive Outcome (A : Type) : Type :=
| Resolved (a : A)
| Rejected (e : Err).

Arguments Resolved {A} a.
Arguments Rejected {A} e.

Definition bind {A B : Type} (m : Outcome A) (k : A -> Outcome B) : Outcome B :=
  match m with
  | Resolved a => k a
  | Rejected e => Rejected e
  end.

Notation "'await' x <- m ; k" := (bind m (fun x => k))
  (at level 10, x name, m at level 100, k at level 200).

(** A sequential loop of awaited calls: the first rejection ends it. *)
Fixpoint forEachAwait {A S : Type} (body : S -> A -> Outcome S) (l : list A) (s : S)
  : Outcome S :=
  match l with
  | [] => Resolved s
  | x :: rest => await s' <- body s x; forEachAwait body rest s'
  end.

(** A sequential loop that pushes one awaited result per element. *)
Fixpoint mapAwait {A B : Type} (body : A -> Outcome B) (l : list A) : Outcome (list B) :=
  match l with
  | [] => Resolved []
  | x :: rest =>
      await y <- body x;
      await ys <- mapAwait body rest;
      Resolved (y :: ys)
  end.

(** One row of the type aggregation of [getSchema]: a key and the set
    [$addToSet] collected for it.  A row exists only for a key that
    occurred, so the set has a first member [types0]. *)
Record Group : Type := mkGroup {
  _id : string;
  types0 : string;
  typesRest : list string
}.

Definition groupTypes (field : Group) : list string :=
  types0 field :: typesRest field.

(** [this.database], by the three queries the tool sends to it:
    [listCollections().toArray()] (the names), the pipeline of [getSchema]
    and the pipeline of [getSchemaFromSubDocs] (the [subDoc] of each row). *)
Record Db : Type := mkDb {
  listCollections : Outcome (list string);
  aggregateTypes : string -> Outcome (list Group);
  aggregateSubDocs : string -> string -> Outcome (list Value)
}.

(** ** Discovery *)

(** [types.includes('object')] *)
Definition includesType (tys : list string) (ty : string) : bool :=
  existsb (fun t => t =? ty) tys.

Definition getSchemaFromSubDocs (db : Db) (collectionName field : string) (depth : nat)
  : Outcome (list FieldSchema) :=
  await subDocs <- aggregateSubDocs db collectionName field;
  Resolved
    (fold_left (fun schema subDoc => (schema ++ getSchemaFromArrayDocs [subDoc] depth)%list)
               subDocs []).

(** [field.types.includes('object') ? 'object' : field.types[0]] *)
Definition reportedType (field : Group) : string :=
  if includesType (groupTypes field) "object" then "object" else types0 field.

(** The body of the loop of [getSchema]: the node pushed for one row. *)
Definition getSchemaField (db : Db) (collectionName : string) (depth : nat)
    (field : Group) : Outcome FieldSchema :=
  let fieldType := reportedType field in
  await subFields <-
    (if fieldType =? "object"
     then await s <- getSchemaFromSubDocs db collectionName (_id field) (depth + 1);
          Resolved (Some s)
     else Resolved None);
  Resolved (mkField (_id field) [fieldType] subFields).

Definition getSchema (db : Db) (collectionName : string) (depth : nat)
  : Outcome (list FieldSchema) :=
  await result <- aggregateTypes db collectionName;
  mapAwait (getSchemaField db collectionName depth) result.

(** The object [generateSchemaForAllCollections] builds: its own
    properties, and the array its prototype was set to, if any ([None] is
    the prototype of an object literal). *)
Record SchemaObject : Type := mkSchemaObject {
  ownProps : gmap string (list FieldSchema);
  prototype : option (list FieldSchema)
}.

(** [schema[collectionName] = fields] on that object: the key
    ["__proto__"] reaches the setter of [Object.prototype], which makes the
    array the prototype of the object and adds no property; any other key
    becomes, or stays, an own property. *)
Definition setCollection (collectionName : string) (fields : list FieldSchema)
    (schema : SchemaObject) : SchemaObject :=
  if collectionName =? "__proto__"
  then mkSchemaObject (ownProps schema) (Some fields)
  else mkSchemaObject (<[collectionName := fields]> (ownProps schema)) (prototype schema).

(** The progress messages sent to the logger are left out. *)
Definition generateSchemaForAllCollections (db : Db) : Outcome SchemaObject :=
  await collections <- listCollections db;
  forEachAwait
    (fun schema collectionName =>
       await s <- getSchema db collectionName 0;
       Resolved (setCollection collectionName s schema))
    collections (mkSchemaObject ∅ None).

(** ** Flattener *)

(** [s.includes(sub)]: [sub] occurs in [s] at some position. *)
Fixpoint includes (s sub : string) : bool :=
  String.prefix sub s ||
  match s with
  | EmptyString => false
  | String _ rest => includes rest sub
  end.

(** [types.join()] *)
Definition join (tys : list string) : string := String.concat "," tys.

(** [parentField ? `${parentField}.${field.name}` : field.name] *)
Definition fieldPath (parentField fieldName : string) : string :=
  if parentField =? "" then fieldName else parentField ++ "." ++ fieldName.

(** [filteredFields.some(filteredField => fieldName.includes(filteredField))] *)
Definition isFiltered (filteredFields : list string) (fieldName : string) : bool :=
  existsb (fun filteredField => includes fieldName filteredField) filteredFields.

(** [result[key] = value] for a string [value] on the object [result]: the
    key ["__proto__"] reaches the setter of [Object.prototype], which
    ignores a string, so that no property is added; any other key becomes,
    or stays, an own property. *)
Definition setProperty (key value : string) (result : gmap string string)
  : gmap string string :=
  if key =? "__proto__" then result else <[key := value]> result.

(** The callback of [fields.forEach] in [flattenFields], as a step on the
    [result] object: one write for the node, then [Object.assign] with the
    object built for its [subFields] (the entries of the latter win). *)
Fixpoint flattenField (filteredFields : list string) (parentField : string)
    (result : gmap string string) (field : FieldSchema) {struct field}
  : gmap string string :=
  let fieldName := fieldPath parentField (name field) in
  if isFiltered filteredFields fieldName then result
  else
    let result := setProperty fieldName (join (types field)) result in
    match subFields field with
    | Some subs =>
        let subFields := fold_left (flattenField filteredFields fieldName) subs ∅ in
        subFields ∪ result
    | None => result
    end.

Definition flattenFields (filteredFields : list string) (fields : list FieldSchema)
    (parentField : string) : gmap string string :=
  fold_left (flattenField filteredFields parentField) fields ∅.

(** The loop over the collections of the schema: the flattened schema
    holds, under each collection name, the flattened fields of that
    collection. *)
Definition flattenSchema (filteredFields : list string)
    (schema : gmap string (list FieldSchema)) : gmap string (gmap string string) :=
  (fun fields => flattenFields filteredFields fields "") <$> schema.

(** ** Options and [connect] *)

(** A logger, by the name of its sink. *)
Definition Logger := string.

(** [SchemaExtractionTool.Options], as the tool reads it: [None] is a
    property that reads as [undefined]. *)
Record Options : Type := mkOptions {
  filteredFields : option (list string);
  logger : option Logger
}.

(** A property of the options object a caller passes: not there, there
    with the value [undefined], or there with a value. *)
Inductive Supplied (A : Type) : Type :=
| Absent
| Undefined
| Value_ (a : A).

Arguments Absent {A}.
Arguments Undefined {A}.
Arguments Value_ {A} a.

(** The options object a caller passes to [connect]. *)
Record OptionsArg : Type := mkOptionsArg {
  argFilteredFields : Supplied (list string);
  argLogger : Supplied Logger
}.

(** Options none of whose properties is there with [undefined]. *)
Definition plainOptions (opts : Options) : OptionsArg :=
  mkOptionsArg
    (match filteredFields opts with Some f => Value_ f | None => Absent end)
    (match logger opts with Some l => Value_ l | None => Absent end).

Coercion plainOptions : Options >-> OptionsArg.

(** [Some opts] is read against the type that is expected of it, so that
    options of the plain kind can stand where a caller's options do. *)
Arguments Some {A} & a.

(** What reading a property of the target gives after the property of the
    source was copied over it. *)
Definition assigned {A : Type} (target : option A) (source : Supplied A) : option A :=
  match source with
  | Absent => target
  | Undefined => None
  | Value_ a => Some a
  end.

(** [Object.assign(target, source)]: every property of [source] is written
    to [target], one that holds [undefined] too; [source] may be
    [undefined].  In the target, [None] is a property that reads as
    [undefined]. *)
Definition objectAssign (target : Options) (source : option OptionsArg) : Options :=
  match source with
  | None => target
  | Some src =>
      mkOptions
        (assigned (filteredFields target) (argFilteredFields src))
        (assigned (logger target) (argLogger src))
  end.

(** The state of the class: the one object behind the static
    [defaultOptions], and the messages the loggers received. *)
Record ClassState : Type := mkClassState {
  defaultOptions : Options;
  logged : list (Logger * string)
}.

(** The value of [defaultOptions] when the module is loaded. *)
Definition initialOptions : Options :=
  mkOptions (Some [".buffer"; "__v"]) (Some "winston").

Definition initialState : ClassState := mkClassState initialOptions [].

(** A reference to an options object.  [Object.assign] returns its target,
    so the only options object an instance ever holds is the static one. *)
Inductive OptionsRef : Type := DefaultOptionsRef.

Definition deref (st : ClassState) (r : OptionsRef) : Options :=
  match r with DefaultOptionsRef => defaultOptions st end.

Record Instance : Type := mkInstance {
  database : Db;
  options : OptionsRef
}.

Record MongoClient : Type := mkMongoClient {
  clientConnect : Outcome unit;
  clientDb : string -> Db
}.

(** [instanceOptions.logger?.info(message)] *)
Definition logInfo (st : ClassState) (message : string) : ClassState :=
  match logger (defaultOptions st) with
  | Some l => mkClassState (defaultOptions st) (logged st ++ [(l, message)])
  | None => st
  end.

Definition connect (st : ClassState) (mongoClient : MongoClient) (databaseName : string)
    (opts : option OptionsArg) : Outcome Instance * ClassState :=
  let st := mkClassState (objectAssign (defaultOptions st) opts) (logged st) in
  let instanceOptions := DefaultOptionsRef in
  match clientConnect mongoClient with
  | Resolved _ =>
      let st := logInfo st "connected." in
      (Resolved (mkInstance (clientDb mongoClient databaseName) instanceOptions), st)
  | Rejected error =>
      let st := logInfo st "connected." in
      (Rejected error, st)
  end.

(** [flattenSchema] with the filtered fields as the options hold them.
    For every field at the top of a collection [some] is called on the
    list: when the list is [undefined] that call throws a [TypeError], and
    a schema none of whose collections has a field is flattened all the
    same. *)
Definition flattenSchemaWith (configured : option (list string))
    (schema : gmap string (list FieldSchema))
  : Outcome (gmap string (gmap string string)) :=
  match configured with
  | Some ff => Resolved (flattenSchema ff schema)
  | None =>
      if bool_decide (map_Forall (fun _ fields => length fields = 0) schema)
      then Resolved (flattenSchema [] schema)
      else Rejected "TypeError"
  end.

(** The method [flattenSchema] of an instance: it reads
    [this.options.filteredFields]. *)
Definition instanceFlattenSchema (st : ClassState) (this : Instance)
    (schema : gmap string (list FieldSchema))
  : Outcome (gmap string (gmap string string)) * ClassState :=
  (flattenSchemaWith (filteredFields (deref st (options this))) schema, st).

(** ** An in-memory store *)

Section MemDb.
(** The store's [$type] operator: the label it reports for a value. *)
Variable typeOp : Value -> string.

(** The properties of a stored document. *)
Definition objectToArray (doc : Value) : list (string * Value) :=
  match doc with VObject props => props | _ => [] end.

(** [$group] with [$addToSet], one key/value pair at a time. *)
Fixpoint addToSet (k ty : string) (groups : list Group) : list Group :=
  match groups with
  | [] => [mkGroup k ty []]
  | g :: rest =>
      if _id g =? k then
        (if includesType (groupTypes g) ty then g
         else mkGroup (_id g) (types0 g) (typesRest g ++ [ty])) :: rest
      else g :: addToSet k ty rest
  end.

(** [doc[field]] *)
Fixpoint getProp (props : list (string * Value)) (field : string) : option Value :=
  match props with
  | [] => None
  | (k, v) :: rest => if k =? field then Some v else getProp rest field
  end.

Definition findCollection (colls : list (string * list Value)) (collectionName : string)
  : list Value :=
  match List.find (fun c => fst c =? collectionName) colls with
  | Some c => snd c
  | None => []
  end.

(** A store holding the collections [colls], every query answered by the
    meaning of its pipeline stages: rows and set members come in the
    order of first occurrence. *)
Definition memDb (colls : list (string * list Value)) : Db :=
  mkDb
    (Resolved (map fst colls))
    (fun collectionName =>
       Resolved
         (fold_left (fun groups kv => addToSet (fst kv) (typeOp (snd kv)) groups)
                    (flat_map objectToArray (findCollection colls collectionName))
                    []))
    (fun collectionName field =>
       Resolved
         (flat_map
            (fun doc =>
               match getProp (objectToArray doc) field with
               | Some subDoc => if typeOp subDoc =? "object" then [subDoc] else []
               | None => []
               end)
            (findCollection colls collectionName))).
End MemDb.

(** ** Vocabulary of the properties *)

(** The documents [getSubFields] hands to [getSchemaFromArrayDocs]: the
    elements of an array, the value itself otherwise. *)
Definition docsOf (value : Value) : list Value :=
  match value with VArray elems => elems | _ => [value] end.

(** A value classified as ["object"], or as ["array"] with a first element
    that is an object or an array. *)
Definition expandsValue (value : Value) : Prop :=
  getFieldType value = "object" \/
  (getFieldType value = "array" /\
   exists firstElement rest,
     value = VArray (firstElement :: rest) /\ isComposite firstElement = true).

(** How many keys of [doc] are [f], and how many nodes of a sequence are
    named [f]. *)
Definition keyCount (f : string) (doc : Value) : nat :=
  length (List.filter (fun kv => fst kv =? f) (forIn doc)).

Definition countName (f : string) (schema : list FieldSchema) : nat :=
  length (List.filter (fun node => name node =? f) schema).

(** The run fails with [e]: the listing rejects, or the discovery of one
    collection rejects after the discovery of all those listed before it
    resolved. *)
Definition failsAt (db : Db) (e : Err) : Prop :=
  listCollections db = Rejected e \/
  exists before collectionName after,
    listCollections db = Resolved (before ++ collectionName :: after)%list /\
    Forall (fun c => exists s, getSchema db c 0 = Resolved s) before /\
    getSchema db collectionName 0 = Rejected e.

(** The nodes of a tree in the order of the traversal, each with its dotted
    path and its joined types. *)
Fixpoint nodesOfField (parentField : string) (field : FieldSchema) {struct field}
  : list (string * string) :=
  let fieldName := fieldPath parentField (name field) in
  (fieldName, join (types field)) ::
  match subFields field with
  | Some subs => flat_map (nodesOfField fieldName) subs
  | None => []
  end.

Definition nodes (parentField : string) (fields : list FieldSchema)
  : list (string * string) :=
  flat_map (nodesOfField parentField) fields.

Definition paths (parentField : string) (fields : list FieldSchema) : list string :=
  map fst (nodes parentField fields).

(** The nodes the flattener writes: the traversal that does not enter a
    node whose path is filtered. *)
Fixpoint visitedOfField (filtered : list string) (parentField : string)
    (field : FieldSchema) {struct field} : list (string * string) :=
  let fieldName := fieldPath parentField (name field) in
  if isFiltered filtered fieldName then []
  else
    (fieldName, join (types field)) ::
    match subFields field with
    | Some subs => flat_map (visitedOfField filtered fieldName) subs
    | None => []
    end.

Definition visited (filtered : list string) (parentField : string)
    (fields : list FieldSchema) : list (string * string) :=
  flat_map (visitedOfField filtered parentField) fields.






(** A run of calls of [connect] that pass no options. *)
Definition connectsWithoutOptions (st : ClassState) (calls : list (MongoClient * string))
  : ClassState :=
  fold_left (fun st call => snd (connect st (fst call) (snd call) None)) calls st.


(** ** Sample data *)

(** [[{a:1}, "x", "y"]] *)
Definition mixedArray : Value :=
  VArray [VObject [("a", VNumber 1)]; VString "x"; VString "y"].

(** The collection ["users"] of the end-to-end scenario. *)
Definition usersDocs : list Value :=
  [ VObject [("name", VString "Al"); ("age", VNumber 30)];
    VObject [("name", VString "Bo"); ("address", VObject [("city", VString "NY")])] ].

Definition usersFields : list FieldSchema :=
  [ mkField "name" ["string"] None;
    mkField "age" ["number"] None;
    mkField "address" ["object"] (Some [mkField "city" ["string"] None]) ].

Definition usersFullSchema : gmap string (list FieldSchema) :=
  {[ "users" := usersFields ]}.


(** A collection whose one document is [{tags: [{a:1}]}]. *)
Definition tagsDocs : list Value :=
  [ VObject [("tags", VArray [VObject [("a", VNumber 1)]])] ].



(** A store of three collections where every query about the second one
    rejects. *)
Definition brokenDb : Db :=
  mkDb
    (Resolved ["a"; "b"; "c"])
    (fun collectionName =>
       if collectionName =? "b" then Rejected "cursor killed"
       else Resolved [mkGroup "k" "string" []])
    (fun _ _ => Resolved []).

(** A client that connects, to a store without collections. *)
Definition emptyClient : MongoClient :=
  mkMongoClient (Resolved tt) (fun _ => memDb getFieldType []).

(** A client whose connection is refused. *)
Definition deadClient : MongoClient :=
  mkMongoClient (Rejected "ECONNREFUSED") (fun _ => memDb getFieldType []).

(** ** Further vocabulary *)

(** All the nodes of a tree, every node before its sub-fields. *)
Fixpoint nodesBelow (field : FieldSchema) : list FieldSchema :=
  field ::
  match subFields field with
  | Some subs => flat_map nodesBelow subs
  | None => []
  end.

Definition treeNodes (fields : list FieldSchema) : list FieldSchema :=
  flat_map nodesBelow fields.

(** The labels of the type sampler: ["array"] and the results of
    [typeof]. *)
Definition typeTags : list string :=
  ["array"; "undefined"; "object"; "boolean"; "number"; "bigint"; "string";
   "symbol"; "function"].

(** A node whose types are one label of the type sampler. *)
Definition hasOneTag (node : FieldSchema) : Prop :=
  exists tag, types node = [tag] /\ In tag typeTags.

(** The entries of a sequence of writes that the [result] object keeps:
    all but those under the key ["__proto__"]. *)
Definition stored (entries : list (string * string)) : list (string * string) :=
  List.filter (fun entry => negb (fst entry =? "__proto__")) entries.

(** A document in which [for (key in doc)] finds a key. *)
Definition hasKeys (doc : Value) : bool :=
  match forIn doc with [] => false | _ :: _ => true end.



(** ** The runner *)

(** What [main] of runner.ts asks of its host besides the store: whether
    the [.tmp] directory exists, and the outcomes of [fs.mkdirSync], of
    the two calls of [fs.writeFileSync] and of [mongoClient.close()]. *)
Record Host : Type := mkHost {
  existsSync : bool;
  mkdirSync : Outcome unit;
  writeSchemaFile : Outcome unit;
  writeFlattenedFile : Outcome unit;
  close : Outcome unit
}.

(** What a run of [main] leaves behind.  A file is recorded with the value
    that was serialised into it. *)
Inductive Effect : Type :=
| MadeDir
| WroteSchema (schema : gmap string (list FieldSchema))
| WroteFlattened (flattened : gmap string (gmap string string))
| ClosedClient.

(** The steps of [main] after the schema is flattened: the directory, the
    two files, the client.  The outcome is that of the promise of [main]. *)
Definition persist (host : Host) (schema : gmap string (list FieldSchema))
    (flattened : gmap string (gmap string string)) : Outcome unit * list Effect :=
  let made := if existsSync host then [] else [MadeDir] in
  match (if existsSync host then Resolved tt else mkdirSync host) with
  | Rejected e => (Rejected e, [])
  | Resolved _ =>
      match writeSchemaFile host with
      | Rejected e => (Rejected e, made)
      | Resolved _ =>
          match writeFlattenedFile host with
          | Rejected e => (Rejected e, made ++ [WroteSchema schema])%list
          | Resolved _ =>
              match close host with
              | Rejected e =>
                  (Rejected e,
                   made ++ [WroteSchema schema; WroteFlattened flattened])%list
              | Resolved _ =>
                  (Resolved tt,
                   made ++ [WroteSchema schema; WroteFlattened flattened;
                            ClosedClient])%list
              end
          end
      end
  end.

(** The keys [for (key in schema)] finds on the generated object beyond
    its own: the indices of the array that is its prototype, where no own
    property has that name. *)
Definition inheritedKeys (schema : SchemaObject) : list string :=
  match prototype schema with
  | Some fields =>
      List.filter (fun key => negb (bool_decide (is_Some (ownProps schema !! key))))
                  (map indexKey (seq 0 (length fields)))
  | None => []
  end.

(** [tool.flattenSchema(schema)] on the generated object.  Under an
    inherited key [schema[key]] is a node, not an array of nodes, and
    [fields.forEach] throws a [TypeError]; without such a key the own
    properties are flattened. *)
Definition flattenGenerated (st : ClassState) (tool : Instance) (schema : SchemaObject)
  : Outcome (gmap string (gmap string string)) * ClassState :=
  match inheritedKeys schema with
  | [] => instanceFlattenSchema st tool (ownProps schema)
  | _ :: _ => (Rejected "TypeError", st)
  end.

(** [main]: connect without options, discover, flatten, persist.  The
    result is the outcome of its promise, with the effects on the host and
    the state of the class.  [JSON.stringify] writes the own properties of
    the schema. *)
Definition main (st : ClassState) (mongoClient : MongoClient) (databaseName : string)
    (host : Host) : Outcome unit * list Effect * ClassState :=
  match connect st mongoClient databaseName None with
  | (Rejected e, st) => (Rejected e, [], st)
  | (Resolved tool, st) =>
      match generateSchemaForAllCollections (database tool) with
      | Rejected e => (Rejected e, [], st)
      | Resolved schema =>
          match flattenGenerated st tool schema with
          | (Rejected e, st) => (Rejected e, [], st)
          | (Resolved flattened, st) =>
              (persist host (ownProps schema) flattened, st)
          end
      end
  end.

(** [process.exit] after [main]: [0] when its promise resolves, [1] when
    it rejects. *)
Definition exitCode (outcome : Outcome unit) : nat :=
  match outcome with Resolved _ => 0 | Rejected _ => 1 end.

(** * Properties *)

(** ** Derivation from documents *)

Lemma map_mapFrom {A B C : Type} (g : B -> C) (f : nat -> A -> B) (i : nat) (l : list A) :
  map g (mapFrom f i l) = mapFrom (fun j x => g (f j x)) i l.
Proof.
  revert i. induction l as [|x l IH]; intros i; simpl; [reflexivity|].
  now rewrite IH.
Qed.

(** The loop of [getSchemaFromArrayDocs] over one document, as the
    recursion on values spells it out. *)
Lemma fromDoc_forIn (depth : nat) (doc : Value) :
  match doc with
  | VObject props =>
      map (fun kv => mkField (fst kv) [getFieldType (snd kv)]
                             (getSubFieldsOf (snd kv) depth)) props
  | VArray elems =>
      mapFrom (fun i x => mkField (indexKey i) [getFieldType x]
                                  (getSubFieldsOf x depth)) 0 elems
  | VString s =>
      mapFrom (fun i c => mkField (indexKey i) [getFieldType (VString c)] None)
              0 (codeUnits s)
  | _ => []
  end
  = map (fun kv => mkField (fst kv) [getFieldType (snd kv)]
                           (getSubFieldsOf (snd kv) depth)) (forIn doc).
Proof.
  destruct doc; simpl; try reflexivity; now rewrite map_mapFrom.
Qed.

(** The recursion on values computes [getSubFields] at the arguments of its
    call site. *)
Lemma getSubFieldsOf_eq (value : Value) (depth : nat) :
  getSubFieldsOf value depth = getSubFields value (getFieldType value) depth.
Proof.
  destruct value as [| | b | n | s | elems | props | | n |]; try reflexivity.
  - destruct elems as [|firstElement rest]; [reflexivity|].
    cbn [getSubFieldsOf getSubFields getFieldType isArray String.eqb Ascii.eqb Bool.eqb].
    destruct (isComposite firstElement); [|reflexivity].
    f_equal. unfold getSchemaFromArrayDocs.
    apply flat_map_ext. intros doc. apply fromDoc_forIn.
  - cbn. now rewrite app_nil_r.
Qed.


(** Sub-fields are derived for exactly the values that [expandsValue]
    describes, and then over all the documents of [docsOf]. *)
Lemma getSubFields_expands (value : Value) (depth : nat) :
  (expandsValue value ->
   getSubFields value (getFieldType value) depth
   = Some (getSchemaFromArrayDocs (docsOf value) (depth + 1))) /\
  (~ expandsValue value ->
   getSubFields value (getFieldType value) depth = None).
Proof.
  unfold expandsValue.
  destruct value as [| | b | n | s | elems | props | | n |]; cbn;
    try (split; [intros [H|[H _]]; discriminate H | reflexivity]);
    try (split; [reflexivity | intros H; exfalso; apply H; now left]).
  destruct elems as [|firstElement rest]; cbn.
  - split; [|reflexivity].
    intros [H|[_ (f & r & H & _)]]; discriminate H.
  - destruct (isComposite firstElement) eqn:Hc.
    + split; [reflexivity|]. intros H. exfalso. apply H. right.
      split; [reflexivity|]. now exists firstElement, rest.
    + split; [|reflexivity].
      intros [H|[_ (f & r & H & Hf)]]; [discriminate H|].
      injection H as -> ->. congruence.
Qed.

Lemma getSubFields_is_Some (value : Value) (depth : nat) :
  is_Some (getSubFields value (getFieldType value) depth) <-> expandsValue value.
Proof.
  destruct (getSubFields_expands value depth) as [Hyes Hno]. split.
  - intros [subs Hsubs].
    destruct value as [| | b | n | s | [|firstElement rest] | props | | n |];
      try discriminate Hsubs; try (now left).
    right. split; [reflexivity|]. exists firstElement, rest. split; [reflexivity|].
    cbn in Hsubs. destruct (isComposite firstElement); [reflexivity|discriminate].
  - intros H. rewrite (Hyes H). now eexists.
Qed.

(** The policy on arrays: nothing for an empty array; for a non-empty one
    the first element alone decides, and the derivation then runs over
    every element one level deeper. *)
Lemma getSubFields_array (elems : list Value) (depth : nat) :
  getSubFields (VArray elems) "array" depth =
  match elems with
  | [] => None
  | firstElement :: _ =>
      if isComposite firstElement
      then Some (getSchemaFromArrayDocs elems (depth + 1))
      else None
  end.
Proof. destruct elems; reflexivity. Qed.

Lemma length_mapFrom {A B : Type} (f : nat -> A -> B) (l : list A) (i : nat) :
  length (mapFrom f i l) = length l.
Proof.
  revert i. induction l as [|x l IH]; intros i; [reflexivity|].
  cbn [mapFrom length]. now rewrite IH.
Qed.

(** A number, a boolean, [null] and [undefined] have no keys to enumerate;
    a string has one per code unit. *)
Lemma forIn_primitive (doc : Value) :
  match doc with
  | VUndefined | VNull | VBoolean _ | VNumber _ => forIn doc = []
  | VString s => length (forIn doc) = length (codeUnits s)
  | _ => True
  end.
Proof.
  destruct doc; try reflexivity; try exact I. apply length_mapFrom.
Qed.

(** ** Sampling of sub-documents *)

Lemma fold_left_push {A B : Type} (f : A -> list B) (l : list A) (acc : list B) :
  fold_left (fun schema x => (schema ++ f x)%list) l acc = (acc ++ flat_map f l)%list.
Proof.
  revert acc. induction l as [|x l IH]; intros acc; simpl.
  - now rewrite app_nil_r.
  - now rewrite IH, <- app_assoc.
Qed.

Lemma getSchemaFromArrayDocs_app (docs1 docs2 : list Value) (depth : nat) :
  getSchemaFromArrayDocs (docs1 ++ docs2) depth =
  (getSchemaFromArrayDocs docs1 depth ++ getSchemaFromArrayDocs docs2 depth)%list.
Proof. unfold getSchemaFromArrayDocs. apply flat_map_app. Qed.

Lemma getSchemaFromArrayDocs_singletons (docs : list Value) (depth : nat) :
  flat_map (fun doc => getSchemaFromArrayDocs [doc] depth) docs =
  getSchemaFromArrayDocs docs depth.
Proof.
  unfold getSchemaFromArrayDocs. apply flat_map_ext. intros doc. simpl.
  now rewrite app_nil_r.
Qed.

(** What [getSchemaFromSubDocs] returns: the schemas of the sampled
    sub-documents, one after the other. *)
Lemma getSchemaFromSubDocs_eq (db : Db) (collectionName field : string) (depth : nat) :
  getSchemaFromSubDocs db collectionName field depth =
  (await subDocs <- aggregateSubDocs db collectionName field;
   Resolved (flat_map (fun subDoc => getSchemaFromArrayDocs [subDoc] depth) subDocs)).
Proof.
  unfold getSchemaFromSubDocs.
  destruct (aggregateSubDocs db collectionName field) as [subDocs|e]; simpl;
    [|reflexivity].
  now rewrite fold_left_push.
Qed.

Lemma countName_app (f : string) (l1 l2 : list FieldSchema) :
  countName f (l1 ++ l2) = countName f l1 + countName f l2.
Proof. unfold countName. now rewrite List.filter_app, length_app. Qed.

Lemma countName_doc (f : string) (doc : Value) (depth : nat) :
  countName f (getSchemaFromArrayDocs [doc] depth) = keyCount f doc.
Proof.
  unfold countName, keyCount, getSchemaFromArrayDocs. simpl. rewrite app_nil_r.
  induction (forIn doc) as [|kv l IH]; simpl; [reflexivity|].
  destruct (fst kv =? f); simpl; now rewrite IH.
Qed.

Lemma countName_subDocs (f : string) (subDocs : list Value) (depth : nat) :
  countName f (flat_map (fun subDoc => getSchemaFromArrayDocs [subDoc] depth) subDocs)
  = list_sum (map (keyCount f) subDocs).
Proof.
  induction subDocs as [|doc l IH]; [reflexivity|].
  cbn [flat_map map list_sum fold_right].
  rewrite countName_app, countName_doc.
  unfold list_sum in IH. now rewrite IH.
Qed.

(** ** Sequential loops *)

Lemma mapAwait_Resolved {A B : Type} (body : A -> Outcome B) (l : list A) (ys : list B) :
  mapAwait body l = Resolved ys <-> Forall2 (fun x y => body x = Resolved y) l ys.
Proof.
  revert ys. induction l as [|x l IH]; intros ys; simpl.
  - split.
    + intros [= <-]. constructor.
    + intros H. inversion H. reflexivity.
  - split.
    + destruct (body x) as [y|e] eqn:Hx; simpl; [|discriminate].
      destruct (mapAwait body l) as [ys'|e] eqn:Hl; simpl; [|discriminate].
      intros [= <-]. constructor; [assumption|]. now apply IH.
    + intros H. inversion H as [|x' y l' ys' Hx Hl]; subst.
      rewrite Hx. simpl. apply IH in Hl. rewrite Hl. reflexivity.
Qed.

Lemma mapAwait_total {A B : Type} (body : A -> Outcome B) (l : list A) :
  Forall (fun x => exists y, body x = Resolved y) l ->
  exists ys, mapAwait body l = Resolved ys.
Proof.
  induction 1 as [|x l [y Hy] _ [ys Hys]]; simpl.
  - now eexists.
  - rewrite Hy, Hys. simpl. now eexists.
Qed.

Lemma forEachAwait_rejects {A S : Type} (body : S -> A -> Outcome S)
    (before : list A) (x : A) (after : list A) (e : Err) :
  Forall (fun y => forall s, exists s', body s y = Resolved s') before ->
  (forall s, body s x = Rejected e) ->
  forall s, forEachAwait body (before ++ x :: after) s = Rejected e.
Proof.
  intros Hbefore Hx. induction Hbefore as [|y l Hy _ IH]; intros s; simpl.
  - now rewrite Hx.
  - destruct (Hy s) as [s' ->]. simpl. apply IH.
Qed.

(** ** Top-level discovery *)

Lemma reportedType_object (field : Group) :
  includesType (groupTypes field) "object" = true -> reportedType field = "object".
Proof. unfold reportedType. now intros ->. Qed.

Lemma includesType_In (tys : list string) (ty : string) :
  includesType tys ty = true <-> In ty tys.
Proof.
  unfold includesType. rewrite existsb_exists. split.
  - intros (t & Hin & Heq). apply String.eqb_eq in Heq. now subst.
  - intros Hin. exists ty. split; [assumption|]. apply String.eqb_refl.
Qed.

(** The node [getSchema] pushes for a row whose sub-document query
    resolves (or is not sent). *)
Lemma getSchemaField_Resolved (db : Db) (collectionName : string) (depth : nat)
    (field : Group) (node : FieldSchema) :
  getSchemaField db collectionName depth field = Resolved node ->
  name node = _id field /\
  types node = [reportedType field] /\
  (reportedType field = "object" ->
   exists subDocs,
     aggregateSubDocs db collectionName (_id field) = Resolved subDocs /\
     subFields node = Some (getSchemaFromArrayDocs subDocs (depth + 1))) /\
  (reportedType field <> "object" -> subFields node = None).
Proof.
  unfold getSchemaField.
  destruct (String.eqb_spec (reportedType field) "object") as [Hobj|Hobj].
  - rewrite getSchemaFromSubDocs_eq.
    destruct (aggregateSubDocs db collectionName (_id field)) as [subDocs|e];
      cbn [bind]; [|discriminate].
    intros [= <-]. cbn [name types subFields].
    split; [reflexivity|split; [reflexivity|split; [|congruence]]].
    intros _. exists subDocs. split; [reflexivity|].
    f_equal. apply (getSchemaFromArrayDocs_singletons subDocs (depth + 1)).
  - simpl. intros [= <-]. cbn [name types subFields].
    split; [reflexivity|split; [reflexivity|split; [|reflexivity]]].
    intros H. contradiction.
Qed.

Lemma getSchemaField_total (db : Db) (collectionName : string) (depth : nat)
    (field : Group) :
  (includesType (groupTypes field) "object" = true ->
   exists subDocs, aggregateSubDocs db collectionName (_id field) = Resolved subDocs) ->
  exists node, getSchemaField db collectionName depth field = Resolved node.
Proof.
  intros Hq. unfold getSchemaField, reportedType.
  destruct (includesType (groupTypes field) "object") eqn:Hinc.
  - destruct (Hq eq_refl) as [subDocs HsubDocs].
    cbn. rewrite getSchemaFromSubDocs_eq, HsubDocs. simpl. now eexists.
  - destruct (String.eqb_spec (types0 field) "object") as [Hobj|Hobj].
    + exfalso. assert (Hin : In "object" (groupTypes field)) by (left; exact Hobj).
      apply includesType_In in Hin. congruence.
    + simpl. now eexists.
Qed.

(** C2. Object wins ties: when the type aggregation of a collection
    resolves and so does the sub-document query of every row that has
    ["object"] among its types, [getSchema] resolves with one node per row,
    in order, named after the row; and the types of the node of a row that
    has ["object"] among its types are exactly [["object"]], whatever else
    the row holds. *)
Theorem C2_object_wins_ties (db : Db) (collectionName : string) (depth : nat)
    (result : list Group) :
  aggregateTypes db collectionName = Resolved result ->
  Forall (fun field =>
            includesType (groupTypes field) "object" = true ->
            exists subDocs,
              aggregateSubDocs db collectionName (_id field) = Resolved subDocs)
         result ->
  exists schema,
    getSchema db collectionName depth = Resolved schema /\
    Forall2 (fun field node =>
               name node = _id field /\
               (In "object" (groupTypes field) -> types node = ["object"]))
            result schema.
Proof.
  intros Hresult Hsubs. unfold getSchema. rewrite Hresult. cbn [bind].
  destruct (mapAwait_total (getSchemaField db collectionName depth) result)
    as [schema Hschema].
  { eapply Forall_impl; [exact Hsubs|].
    intros field Hfield. now apply getSchemaField_total. }
  exists schema. split; [exact Hschema|].
  apply mapAwait_Resolved in Hschema.
  eapply Forall2_impl; [exact Hschema|].
  intros field node Hnode. cbv beta in Hnode.
  apply getSchemaField_Resolved in Hnode as (Hname & Htypes & _).
  split; [exact Hname|].
  intros Hin. apply includesType_In in Hin.
  now rewrite Htypes, (reportedType_object _ Hin).
Qed.

Lemma C2_object_wins_ties_witness :
  exists schema,
    getSchema
      (memDb getFieldType
         [("c", [VObject [("k", VNumber 1)]; VObject [("k", VObject [])];
                 VObject [("k", VArray [])]])])
      "c" 0 = Resolved schema /\
    Forall2 (fun field node =>
               name node = _id field /\
               (In "object" (groupTypes field) -> types node = ["object"]))
            [mkGroup "k" "number" ["object"; "array"]] schema.
Proof.
  apply C2_object_wins_ties; [reflexivity|].
  constructor; [|constructor]. intros _. eexists. reflexivity.
Defined.

(** C3. The array [[{a:1}, "x", "y"]]: the derivation runs over all three
    elements, and the two strings, enumerated by [for (key in doc)] like
    the documents they stand among, add one node named ["0"] each. *)
Theorem C3_mixed_array_subFields :
  getSubFields mixedArray (getFieldType mixedArray) 0 =
    Some (getSchemaFromArrayDocs (docsOf mixedArray) 1) /\
  getSchemaFromArrayDocs (docsOf mixedArray) 1 =
    [ mkField "a" ["number"] None;
      mkField "0" ["string"] None;
      mkField "0" ["string"] None ] /\
  getSchemaFromArrayDocs [VString "x"] 1 = [mkField "0" ["string"] None].
Proof. repeat split; reflexivity. Qed.

(** C7. Sampling of sub-documents does not merge: when the query
    resolves, [getSchemaFromSubDocs] resolves with the schemas of the
    sub-documents one after the other, in the order of the sample; a name
    [f] occurs in it as many times as the sub-documents have a key [f], so
    exactly N times when each of the N sub-documents has that key once. *)
Theorem C7_subDocs_not_merged (db : Db) (collectionName field : string) (depth : nat)
    (subDocs : list Value) :
  aggregateSubDocs db collectionName field = Resolved subDocs ->
  exists schema,
    getSchemaFromSubDocs db collectionName field depth = Resolved schema /\
    schema = flat_map (fun subDoc => getSchemaFromArrayDocs [subDoc] depth) subDocs /\
    (forall f, countName f schema = list_sum (map (keyCount f) subDocs)) /\
    (forall f, Forall (fun subDoc => keyCount f subDoc = 1) subDocs ->
               countName f schema = length subDocs).
Proof.
  intros Hq. rewrite getSchemaFromSubDocs_eq, Hq. cbn [bind].
  eexists. split; [reflexivity|]. split; [reflexivity|].
  split; intros f.
  - apply countName_subDocs.
  - intros Hone. rewrite countName_subDocs. clear Hq.
    induction Hone as [|doc l Hdoc _ IH]; [reflexivity|].
    cbn [map list_sum fold_right length]. unfold list_sum in IH.
    now rewrite Hdoc, IH.
Qed.

Lemma C7_subDocs_not_merged_witness :
  exists schema,
    getSchemaFromSubDocs
      (memDb getFieldType
         [("users", [VObject [("address", VObject [("city", VString "NY")])];
                     VObject [("address", VObject [("city", VString "LA")])];
                     VObject [("address", VString "none")]])])
      "users" "address" 1 = Resolved schema /\
    schema = flat_map (fun subDoc => getSchemaFromArrayDocs [subDoc] 1)
               [VObject [("city", VString "NY")]; VObject [("city", VString "LA")]] /\
    (forall f, countName f schema =
               list_sum (map (keyCount f)
                 [VObject [("city", VString "NY")]; VObject [("city", VString "LA")]])) /\
    (forall f, Forall (fun subDoc => keyCount f subDoc = 1)
                 [VObject [("city", VString "NY")]; VObject [("city", VString "LA")]] ->
               countName f schema = 2).
Proof. apply C7_subDocs_not_merged. reflexivity. Defined.

(** ** Enumeration of the collections *)

Lemma generate_step_total (db : Db) (collectionName : string) :
  (exists s, getSchema db collectionName 0 = Resolved s) ->
  forall schema : SchemaObject,
  exists schema',
    (await s <- getSchema db collectionName 0;
     Resolved (setCollection collectionName s schema)) = Resolved schema'.
Proof. intros [s ->] schema. cbn [bind]. now eexists. Qed.

(** When the listing resolves and the discovery of some collection
    rejects, there is a first one that does. *)
Lemma some_failure_failsAt (db : Db) (collections : list string)
    (collectionName : string) (e : Err) :
  listCollections db = Resolved collections ->
  In collectionName collections ->
  getSchema db collectionName 0 = Rejected e ->
  exists e', failsAt db e'.
Proof.
  intros Hlist Hin Hfail.
  assert (Hfirst : exists before c after e',
             collections = (before ++ c :: after)%list /\
             Forall (fun c => exists s, getSchema db c 0 = Resolved s) before /\
             getSchema db c 0 = Rejected e').
  { clear Hlist. induction collections as [|x rest IH]; [destruct Hin|].
    destruct (getSchema db x 0) as [s|e'] eqn:Hx.
    - destruct Hin as [->|Hin]; [congruence|].
      destruct (IH Hin) as (before & c & after & e'' & -> & Hbefore & Hc).
      exists (x :: before), c, after, e''.
      split; [reflexivity|]. split; [|exact Hc].
      constructor; [now exists s|exact Hbefore].
    - exists [], x, rest, e'. split; [reflexivity|]. split; [constructor|exact Hx]. }
  destruct Hfirst as (before & c & after & e' & -> & Hbefore & Hc).
  exists e'. right. now exists before, c, after.
Qed.

(** C8. All or nothing: when the listing rejects, or the discovery of one
    collection rejects after the discovery of those before it resolved,
    [generateSchemaForAllCollections] rejects with that error; the outcome
    carries no schema, so what the earlier collections gave is lost. *)
Theorem C8_all_or_nothing (db : Db) (e : Err) :
  failsAt db e -> generateSchemaForAllCollections db = Rejected e.
Proof.
  unfold generateSchemaForAllCollections.
  intros [Hlist|(before & collectionName & after & Hlist & Hbefore & Hfail)];
    rewrite Hlist; cbn [bind]; [reflexivity|].
  apply forEachAwait_rejects.
  - eapply Forall_impl; [exact Hbefore|].
    intros c Hc. cbv beta. now apply generate_step_total.
  - intros schema. now rewrite Hfail.
Qed.

Lemma C8_all_or_nothing_witness :
  generateSchemaForAllCollections brokenDb = Rejected "cursor killed".
Proof.
  apply C8_all_or_nothing. right. exists ["a"], "b", ["c"].
  split; [reflexivity|]. split; [|reflexivity].
  constructor; [|constructor]. eexists. reflexivity.
Defined.

(** ** Trees of nodes *)

(** Induction on a schema tree: a node with sub-fields inherits the
    property from each of them. *)
Lemma FieldSchema_tree_ind (P : FieldSchema -> Prop) :
  (forall n tys, P (mkField n tys None)) ->
  (forall n tys subs, Forall P subs -> P (mkField n tys (Some subs))) ->
  forall field, P field.
Proof.
  intros Hleaf Hnode.
  exact (fix go (field : FieldSchema) : P field :=
           match field with
           | mkField n tys None => Hleaf n tys
           | mkField n tys (Some subs) =>
               Hnode n tys subs
                 ((fix all (l : list FieldSchema) : Forall P l :=
                     match l with
                     | [] => List.Forall_nil P
                     | x :: rest => @List.Forall_cons _ P x rest (go x) (all rest)
                     end) subs)
           end).
Qed.

(** ** The flattener writes the visited nodes, later writes winning *)

Lemma stored_app (l1 l2 : list (string * string)) :
  stored (l1 ++ l2) = (stored l1 ++ stored l2)%list.
Proof. apply List.filter_app. Qed.

Lemma stored_rev (l : list (string * string)) : stored (rev l) = rev (stored l).
Proof. apply List.filter_rev. Qed.

Lemma stored_In (l : list (string * string)) (entry : string * string) :
  In entry (stored l) <-> In entry l /\ fst entry <> "__proto__".
Proof.
  unfold stored. rewrite List.filter_In, negb_true_iff.
  destruct (String.eqb_spec (fst entry) "__proto__"); intuition congruence.
Qed.

(** One write on the [result] object. *)
Lemma setProperty_stored (key value : string) (result : gmap string string) :
  setProperty key value result = list_to_map (stored [(key, value)]) ∪ result.
Proof.
  unfold setProperty, stored. cbn [List.filter fst].
  destruct (key =? "__proto__"); cbn [negb list_to_map foldr curry].
  - now rewrite (left_id_L ∅ (∪)).
  - now rewrite insert_empty, insert_union_singleton_l.
Qed.

Lemma fold_flattenField (filtered : list string) (parentField : string)
    (fields : list FieldSchema) :
  Forall (fun field =>
            forall parent result,
              flattenField filtered parent result field =
              list_to_map (rev (stored (visitedOfField filtered parent field))) ∪ result)
         fields ->
  forall result,
    fold_left (flattenField filtered parentField) fields result =
    list_to_map (rev (stored (visited filtered parentField fields))) ∪ result.
Proof.
  unfold visited. induction 1 as [|field rest Hfield _ IH]; intros result.
  - cbn. now rewrite (left_id_L ∅ (∪)).
  - cbn [fold_left flat_map].
    rewrite IH, Hfield, stored_app, rev_app_distr, list_to_map_app.
    now rewrite (assoc_L (∪)).
Qed.

Lemma flattenField_visited (filtered : list string) (field : FieldSchema) :
  forall parentField result,
    flattenField filtered parentField result field =
    list_to_map (rev (stored (visitedOfField filtered parentField field))) ∪ result.
Proof.
  induction field as [n tys|n tys subs IH] using FieldSchema_tree_ind;
    intros parentField result; cbn [flattenField visitedOfField name types subFields];
    destruct (isFiltered filtered (fieldPath parentField n));
    try (cbn; now rewrite (left_id_L ∅ (∪))).
  - rewrite setProperty_stored. f_equal. f_equal.
    rewrite <- stored_rev. reflexivity.
  - rewrite (fold_flattenField _ _ _ IH), setProperty_stored. unfold visited.
    rewrite (right_id_L ∅ (∪)), (assoc_L (∪)), <- list_to_map_app. f_equal. f_equal.
    change ((fieldPath parentField n, join tys)
              :: flat_map (visitedOfField filtered (fieldPath parentField n)) subs)
      with ([(fieldPath parentField n, join tys)]
              ++ flat_map (visitedOfField filtered (fieldPath parentField n)) subs)%list.
    rewrite stored_app, rev_app_distr. f_equal.
    rewrite <- stored_rev. reflexivity.
Qed.

Lemma flattenFields_visited (filtered : list string) (fields : list FieldSchema)
    (parentField : string) :
  flattenFields filtered fields parentField =
  list_to_map (rev (stored (visited filtered parentField fields))).
Proof.
  unfold flattenFields. rewrite fold_flattenField.
  - now rewrite (right_id_L ∅ (∪)).
  - apply List.Forall_forall. intros field _ parent result. apply flattenField_visited.
Qed.

(** ** Substrings and paths *)

Lemma append_cons (c : ascii) (s t : string) : String c s ++ t = String c (s ++ t).
Proof. reflexivity. Qed.

Lemma prefix_spec (sub s : string) :
  String.prefix sub s = true <-> exists post, s = sub ++ post.
Proof.
  revert s. induction sub as [|a sub IH]; intros s; simpl.
  - split; [intros _; now exists s | intros _; now destruct s].
  - destruct s as [|b s]; simpl.
    + split; [discriminate | intros [post H]; discriminate H].
    + destruct (ascii_dec a b) as [->|Hab].
      * rewrite IH. split; intros [post H]; exists post.
        -- rewrite append_cons. now rewrite H.
        -- rewrite append_cons in H. now injection H.
      * split; [discriminate|]. intros [post H].
        rewrite append_cons in H. injection H as H1 H2. congruence.
Qed.

(** [includes] finds exactly the occurrences of [sub] inside [s]. *)
Lemma includes_spec (s sub : string) :
  includes s sub = true <-> exists pre post, s = pre ++ sub ++ post.
Proof.
  induction s as [|c s IH]; cbn [includes].
  - rewrite orb_false_r, prefix_spec. split.
    + intros [post H]. now exists "", post.
    + intros (pre & post & H). destruct pre; [now exists post|discriminate H].
  - rewrite orb_true_iff, prefix_spec, IH. split.
    + intros [[post H]|(pre & post & H)].
      * now exists "", post.
      * exists (String c pre), post. rewrite append_cons. now rewrite H.
    + intros (pre & post & H). destruct pre as [|c' pre].
      * left. now exists post.
      * right. exists pre, post. rewrite append_cons in H. now injection H.
Qed.

Lemma string_app_assoc (a b c : string) : (a ++ b) ++ c = a ++ (b ++ c).
Proof.
  induction a as [|x a IH]; [reflexivity|].
  rewrite !append_cons. now rewrite IH.
Qed.

Lemma includes_app_l (s t sub : string) :
  includes s sub = true -> includes (s ++ t) sub = true.
Proof.
  rewrite !includes_spec. intros (pre & post & ->).
  exists pre, (post ++ t). now rewrite !string_app_assoc.
Qed.

Lemma isFiltered_app_l (filtered : list string) (s t : string) :
  isFiltered filtered s = true -> isFiltered filtered (s ++ t) = true.
Proof.
  unfold isFiltered. rewrite !existsb_exists.
  intros (sub & Hin & Hs). exists sub. split; [assumption|].
  now apply includes_app_l.
Qed.

(** The path of a child continues the path of its parent. *)
Lemma fieldPath_extends (parentField fieldName : string) :
  exists rest, fieldPath parentField fieldName = parentField ++ rest.
Proof.
  unfold fieldPath. destruct (String.eqb_spec parentField "") as [->|_].
  - now exists fieldName.
  - now eexists.
Qed.

Lemma isFiltered_fieldPath (filtered : list string) (parentField fieldName : string) :
  isFiltered filtered parentField = true ->
  isFiltered filtered (fieldPath parentField fieldName) = true.
Proof.
  destruct (fieldPath_extends parentField fieldName) as [rest ->].
  apply isFiltered_app_l.
Qed.

(** Below a filtered path every path is filtered. *)
Lemma isFiltered_nodesOfField (filtered : list string) (field : FieldSchema) :
  forall parentField p,
    isFiltered filtered parentField = true ->
    In p (map fst (nodesOfField parentField field)) ->
    isFiltered filtered p = true.
Proof.
  induction field as [n tys|n tys subs IH] using FieldSchema_tree_ind;
    intros parentField p Hparent; cbn [nodesOfField name types subFields map In].
  - intros [<-|[]]. now apply isFiltered_fieldPath.
  - intros [<-|Hin]; [now apply isFiltered_fieldPath|].
    rewrite in_map_iff in Hin. destruct Hin as ([q v] & <- & Hin).
    rewrite in_flat_map in Hin. destruct Hin as (sub & Hsub & Hin).
    rewrite List.Forall_forall in IH.
    apply (IH sub Hsub (fieldPath parentField n)).
    + now apply isFiltered_fieldPath.
    + rewrite in_map_iff. now exists (q, v).
Qed.

Lemma isFiltered_below (filtered : list string) (parentField : string)
    (fields : list FieldSchema) (p : string) :
  isFiltered filtered parentField = true ->
  In p (paths parentField fields) ->
  isFiltered filtered p = true.
Proof.
  unfold paths, nodes. intros Hparent Hin.
  rewrite in_map_iff in Hin. destruct Hin as ([q v] & <- & Hin).
  rewrite in_flat_map in Hin. destruct Hin as (field & _ & Hin).
  apply (isFiltered_nodesOfField filtered field parentField); [assumption|].
  rewrite in_map_iff. now exists (q, v).
Qed.

Lemma isFiltered_subtree (filtered : list string) (field : FieldSchema)
    (parentField p : string) :
  isFiltered filtered (fieldPath parentField (name field)) = true ->
  In p (map fst (nodesOfField parentField field)) ->
  isFiltered filtered p = true.
Proof.
  destruct field as [n tys [subs|]]; cbn [nodesOfField name types subFields map In];
    intros Hf [<-|Hin]; try assumption; [|destruct Hin].
  now apply (isFiltered_below filtered (fieldPath parentField n) subs).
Qed.

(** The visited nodes are the nodes whose own path is not filtered. *)
Lemma visitedOfField_spec (filtered : list string) (field : FieldSchema) :
  forall parentField entry,
    In entry (visitedOfField filtered parentField field) <->
    In entry (nodesOfField parentField field) /\ isFiltered filtered (fst entry) = false.
Proof.
  induction field as [n tys|n tys subs IH] using FieldSchema_tree_ind;
    intros parentField entry;
    (destruct (isFiltered filtered (fieldPath parentField n)) eqn:Hf;
     [ split;
       [ cbn [visitedOfField name]; rewrite Hf; intros []
       | intros [Hin Hentry];
         assert (isFiltered filtered (fst entry) = true); [|congruence];
         eapply (isFiltered_subtree filtered _ parentField);
           [|apply in_map; exact Hin]; exact Hf ]
     | cbn [visitedOfField nodesOfField name types subFields]; rewrite Hf ]).
  - split.
    + intros [<-|[]]. split; [now left|exact Hf].
    + intros [[<-|[]] _]. now left.
  - cbn [In]. rewrite !in_flat_map. rewrite List.Forall_forall in IH. split.
    + intros [<-|(sub & Hsub & Hin)]; [split; [now left|exact Hf]|].
      apply (IH sub Hsub) in Hin as [Hin Hentry].
      split; [right; now exists sub|assumption].
    + intros [[<-|(sub & Hsub & Hin)] Hentry]; [now left|].
      right. exists sub. split; [assumption|]. now apply (IH sub Hsub).
Qed.

Lemma visited_spec (filtered : list string) (parentField : string)
    (fields : list FieldSchema) (entry : string * string) :
  In entry (visited filtered parentField fields) <->
  In entry (nodes parentField fields) /\ isFiltered filtered (fst entry) = false.
Proof.
  unfold visited, nodes. rewrite !in_flat_map. split.
  - intros (field & Hfield & Hin). apply visitedOfField_spec in Hin as [Hin Hentry].
    split; [now exists field|assumption].
  - intros [(field & Hfield & Hin) Hentry]. exists field. split; [assumption|].
    now apply visitedOfField_spec.
Qed.

(** ** Entries of the flattened map *)

Lemma is_Some_list_to_map (l : list (string * string)) (p : string) :
  is_Some ((list_to_map l : gmap string string) !! p) <-> In p (map fst l).
Proof.
  rewrite <- not_eq_None_Some, <- not_elem_of_list_to_map, list_elem_of_In.
  change (fst <$> l) with (map fst l).
  destruct (in_dec string_dec p (map fst l)); tauto.
Qed.

Lemma flattenFields_is_Some (filtered : list string) (fields : list FieldSchema)
    (parentField p : string) :
  is_Some (flattenFields filtered fields parentField !! p) <->
  In p (paths parentField fields) /\ isFiltered filtered p = false /\ p <> "__proto__".
Proof.
  rewrite flattenFields_visited, is_Some_list_to_map, map_rev, <- in_rev.
  unfold paths. rewrite !in_map_iff. split.
  - intros (entry & <- & Hin). apply stored_In in Hin as [Hin Hproto].
    apply visited_spec in Hin as [Hin Hentry].
    split; [now exists entry|]. now split.
  - intros [(entry & <- & Hin) [Hentry Hproto]]. exists entry. split; [reflexivity|].
    apply stored_In. split; [|exact Hproto]. now apply visited_spec.
Qed.

(** The [result] object never holds the key ["__proto__"]. *)
Lemma flattenFields_proto (filtered : list string) (fields : list FieldSchema)
    (parentField : string) :
  flattenFields filtered fields parentField !! "__proto__" = None.
Proof.
  apply eq_None_not_Some. intros Hsome.
  apply flattenFields_is_Some in Hsome as (_ & _ & Hproto). now apply Hproto.
Qed.





(** ** Counting the entries *)



(** Without a filtered path the flattener visits every node. *)
Lemma visited_unfiltered (filtered : list string) (field : FieldSchema) :
  forall parentField,
    (forall p, In p (map fst (nodesOfField parentField field)) ->
               isFiltered filtered p = false) ->
    visitedOfField filtered parentField field = nodesOfField parentField field.
Proof.
  induction field as [n tys|n tys subs IH] using FieldSchema_tree_ind;
    intros parentField Hall;
    cbn [visitedOfField nodesOfField name types subFields] in *;
    (rewrite (Hall (fieldPath parentField n)); [|now left]); [reflexivity|].
  f_equal.
  assert (Hsubs : forall p,
             In p (map fst (flat_map (nodesOfField (fieldPath parentField n)) subs)) ->
             isFiltered filtered p = false).
  { intros p Hp. apply Hall. now right. }
  clear Hall. generalize dependent (fieldPath parentField n). intros q Hsubs.
  induction IH as [|sub rest Hsub _ IHrest]; [reflexivity|].
  cbn [flat_map] in *. rewrite map_app in Hsubs. f_equal.
  - apply Hsub. intros p Hp. apply Hsubs, in_or_app. now left.
  - apply IHrest. intros p Hp. apply Hsubs, in_or_app. now right.
Qed.

Lemma visited_nodes (filtered : list string) (parentField : string)
    (fields : list FieldSchema) :
  (forall p, In p (paths parentField fields) -> isFiltered filtered p = false) ->
  visited filtered parentField fields = nodes parentField fields.
Proof.
  unfold paths, visited, nodes. induction fields as [|field rest IH]; intros Hall;
    [reflexivity|].
  cbn [flat_map] in *. rewrite map_app in Hall. f_equal.
  - apply visited_unfiltered. intros p Hp. apply Hall, in_or_app. now left.
  - apply IH. intros p Hp. apply Hall, in_or_app. now right.
Qed.











(** ** The end-to-end scenario *)



(** ** Presence of sub-fields *)







(** ** The shared options object *)

Lemma connect_defaultOptions (st : ClassState) (mongoClient : MongoClient)
    (databaseName : string) (opts : option OptionsArg) :
  defaultOptions (snd (connect st mongoClient databaseName opts)) =
  objectAssign (defaultOptions st) opts.
Proof.
  unfold connect, logInfo.
  destruct (clientConnect mongoClient); cbn [snd defaultOptions];
    destruct (logger (objectAssign (defaultOptions st) opts)); reflexivity.
Qed.

Lemma connect_instance (st st' : ClassState) (mongoClient : MongoClient)
    (databaseName : string) (opts : option OptionsArg) (this : Instance) :
  connect st mongoClient databaseName opts = (Resolved this, st') ->
  options this = DefaultOptionsRef /\
  database this = clientDb mongoClient databaseName /\
  st' = snd (connect st mongoClient databaseName opts).
Proof.
  intros H. assert (Hst : st' = snd (connect st mongoClient databaseName opts))
    by now rewrite H.
  unfold connect in H. destruct (clientConnect mongoClient); [|discriminate H].
  injection H as <- _. now split.
Qed.

(** With a list of filtered fields configured the method returns, and
    the state is as before. *)
Lemma instanceFlattenSchema_configured (st : ClassState) (this : Instance)
    (schema : gmap string (list FieldSchema)) (configured : list string) :
  filteredFields (deref st (options this)) = Some configured ->
  instanceFlattenSchema st this schema = (Resolved (flattenSchema configured schema), st).
Proof. intros Hc. unfold instanceFlattenSchema. now rewrite Hc. Qed.

(** Without one it throws as soon as a collection has a field. *)
Lemma flattenSchemaWith_undefined (schema : gmap string (list FieldSchema))
    (collectionName : string) (field : FieldSchema) (rest : list FieldSchema) :
  schema !! collectionName = Some (field :: rest) ->
  flattenSchemaWith None schema = Rejected "TypeError".
Proof.
  intros Hfields. unfold flattenSchemaWith.
  rewrite bool_decide_eq_false_2; [reflexivity|].
  intros Hall. specialize (Hall _ _ Hfields). discriminate Hall.
Qed.

Lemma connectsWithoutOptions_defaultOptions (calls : list (MongoClient * string)) :
  forall st, defaultOptions (connectsWithoutOptions st calls) = defaultOptions st.
Proof.
  unfold connectsWithoutOptions.
  induction calls as [|call calls IH]; intros st; [reflexivity|].
  cbn [fold_left]. now rewrite IH, connect_defaultOptions.
Qed.

(** C9. [flattenSchema] is not total.  A call of [connect] whose options
    hold the property [filteredFields] with the value [undefined] copies
    that value over the default list; from then on, on every instance and
    on every schema one of whose collections has a field, the method
    throws a [TypeError] where it calls [some] on the list.  The state of
    the class is the same after the call as before. *)
Theorem C9_flattenSchema_throws_without_list (st : ClassState)
    (mongoClient : MongoClient) (databaseName : string) (custom : Supplied Logger)
    (this : Instance) (schema : gmap string (list FieldSchema))
    (collectionName : string) (field : FieldSchema) (rest : list FieldSchema) :
  schema !! collectionName = Some (field :: rest) ->
  filteredFields
    (deref (snd (connect st mongoClient databaseName
                   (Some (mkOptionsArg Undefined custom))))
           (options this)) = None /\
  instanceFlattenSchema
    (snd (connect st mongoClient databaseName (Some (mkOptionsArg Undefined custom))))
    this schema =
    (Rejected "TypeError",
     snd (connect st mongoClient databaseName (Some (mkOptionsArg Undefined custom)))).
Proof.
  intros Hfields.
  assert (Hnone : filteredFields
            (deref (snd (connect st mongoClient databaseName
                           (Some (mkOptionsArg Undefined custom))))
                   (options this)) = None).
  { destruct this as [db []]. cbn [deref options].
    now rewrite connect_defaultOptions. }
  split; [exact Hnone|].
  unfold instanceFlattenSchema. rewrite Hnone.
  now rewrite (flattenSchemaWith_undefined _ _ _ _ Hfields).
Qed.

Lemma C9_flattenSchema_throws_without_list_witness :
  filteredFields
    (deref (snd (connect initialState emptyClient "shop"
                   (Some (mkOptionsArg Undefined Absent))))
           (options (mkInstance (clientDb emptyClient "shop") DefaultOptionsRef))) = None /\
  instanceFlattenSchema
    (snd (connect initialState emptyClient "shop" (Some (mkOptionsArg Undefined Absent))))
    (mkInstance (clientDb emptyClient "shop") DefaultOptionsRef) usersFullSchema =
    (Rejected "TypeError",
     snd (connect initialState emptyClient "shop" (Some (mkOptionsArg Undefined Absent)))).
Proof.
  apply (C9_flattenSchema_throws_without_list initialState emptyClient "shop" Absent
           _ usersFullSchema "users" (mkField "name" ["string"] None)
           [mkField "age" ["number"] None;
            mkField "address" ["object"] (Some [mkField "city" ["string"] None])]).
  reflexivity.
Defined.

(** C10. [connect] writes the caller's options into the shared
    [defaultOptions]: after a call with options, whether or not the
    connection succeeded, and after any number of later calls without
    options, the instance a call without options returns reads the merge
    of the former defaults with those options, and so does
    [defaultOptions] itself; a custom list of filtered fields or a custom
    logger is inherited in place of the former default. *)
Theorem C10_connect_changes_defaults (st st' : ClassState)
    (mongoClient later : MongoClient) (databaseName laterName : string)
    (opts : Options) (calls : list (MongoClient * string)) (this : Instance) :
  connect
    (connectsWithoutOptions (snd (connect st mongoClient databaseName (Some opts))) calls)
    later laterName None = (Resolved this, st') ->
  defaultOptions st' = objectAssign (defaultOptions st) (Some opts) /\
  deref st' (options this) = objectAssign (defaultOptions st) (Some opts) /\
  (forall custom, filteredFields opts = Some custom ->
                  filteredFields (deref st' (options this)) = Some custom) /\
  (forall custom, logger opts = Some custom ->
                  logger (deref st' (options this)) = Some custom).
Proof.
  intros Hconnect. apply connect_instance in Hconnect as (Href & _ & ->).
  rewrite Href. cbn [deref].
  rewrite connect_defaultOptions, connectsWithoutOptions_defaultOptions,
    connect_defaultOptions.
  split; [reflexivity|]. split; [reflexivity|].
  split; intros custom Hcustom; unfold objectAssign, plainOptions;
    cbn [filteredFields logger argFilteredFields argLogger];
    now rewrite Hcustom.
Qed.

Lemma C10_connect_changes_defaults_witness :
  defaultOptions
    (snd (connect
            (connectsWithoutOptions
               (snd (connect initialState deadClient "shop"
                       (Some (mkOptions (Some ["password"]) None))))
               [(emptyClient, "shop")])
            emptyClient "blog" None))
    = objectAssign (defaultOptions initialState)
        (Some (mkOptions (Some ["password"]) None)) /\
  deref
    (snd (connect
            (connectsWithoutOptions
               (snd (connect initialState deadClient "shop"
                       (Some (mkOptions (Some ["password"]) None))))
               [(emptyClient, "shop")])
            emptyClient "blog" None))
    (options (mkInstance (clientDb emptyClient "blog") DefaultOptionsRef))
    = objectAssign (defaultOptions initialState)
        (Some (mkOptions (Some ["password"]) None)) /\
  (forall custom,
     filteredFields (mkOptions (Some ["password"]) None) = Some custom ->
     filteredFields
       (deref
          (snd (connect
                  (connectsWithoutOptions
                     (snd (connect initialState deadClient "shop"
                             (Some (mkOptions (Some ["password"]) None))))
                     [(emptyClient, "shop")])
                  emptyClient "blog" None))
          (options (mkInstance (clientDb emptyClient "blog") DefaultOptionsRef)))
     = Some custom) /\
  (forall custom,
     logger (mkOptions (Some ["password"]) None) = Some custom ->
     logger
       (deref
          (snd (connect
                  (connectsWithoutOptions
                     (snd (connect initialState deadClient "shop"
                             (Some (mkOptions (Some ["password"]) None))))
                     [(emptyClient, "shop")])
                  emptyClient "blog" None))
          (options (mkInstance (clientDb emptyClient "blog") DefaultOptionsRef)))
     = Some custom).
Proof.
  apply (C10_connect_changes_defaults initialState _ deadClient emptyClient
           "shop" "blog" (mkOptions (Some ["password"]) None)
           [(emptyClient, "shop")]).
  reflexivity.
Defined.

(** * Further properties of the derivation *)

(** Induction on a value: an array and an object inherit the property from
    their parts. *)
Lemma Value_tree_ind (P : Value -> Prop) :
  P VUndefined -> P VNull ->
  (forall b, P (VBoolean b)) -> (forall n, P (VNumber n)) ->
  (forall s, P (VString s)) ->
  (forall elems, Forall P elems -> P (VArray elems)) ->
  (forall props, Forall (fun kv => P (snd kv)) props -> P (VObject props)) ->
  P VFunction -> (forall n, P (VBigInt n)) -> P VSymbol ->
  forall value, P value.
Proof.
  intros Hundefined Hnull Hboolean Hnumber Hstring Harray Hobject
    Hfunction Hbigint Hsymbol.
  exact (fix go (value : Value) : P value :=
           match value with
           | VUndefined => Hundefined
           | VNull => Hnull
           | VBoolean b => Hboolean b
           | VNumber n => Hnumber n
           | VString s => Hstring s
           | VArray elems =>
               Harray elems
                 ((fix all (l : list Value) : Forall P l :=
                     match l with
                     | [] => List.Forall_nil P
                     | x :: rest => @List.Forall_cons _ P x rest (go x) (all rest)
                     end) elems)
           | VObject props =>
               Hobject props
                 ((fix all (l : list (string * Value))
                     : Forall (fun kv => P (snd kv)) l :=
                     match l with
                     | [] => List.Forall_nil _
                     | kv :: rest =>
                         @List.Forall_cons _ (fun kv => P (snd kv)) kv rest
                           (go (snd kv)) (all rest)
                     end) props)
           | VFunction => Hfunction
           | VBigInt n => Hbigint n
           | VSymbol => Hsymbol
           end).
Qed.

Lemma expandsValue_dec (value : Value) : expandsValue value \/ ~ expandsValue value.
Proof.
  destruct (getSubFields value (getFieldType value) 0) as [subs|] eqn:Hsubs.
  - left. apply (getSubFields_is_Some value 0). now exists subs.
  - right. intros Hexp. apply (getSubFields_is_Some value 0) in Hexp as [subs Hs].
    congruence.
Qed.

Lemma Forall_mapFrom_snd {A : Type} (P : Value -> Prop) (key : nat -> A -> string)
    (val : A -> Value) (l : list A) :
  Forall (fun x => P (val x)) l ->
  forall i, Forall (fun kv => P (snd kv)) (mapFrom (fun j x => (key j x, val x)) i l).
Proof. induction 1; intros i; cbn [mapFrom]; constructor; auto. Qed.

(** The values that [for (key in doc)] reads from a string are strings. *)
Lemma forIn_string (P : Value -> Prop) (s : string) :
  (forall c, P (VString c)) -> Forall (fun kv => P (snd kv)) (forIn (VString s)).
Proof.
  intros H. cbn [forIn].
  apply (Forall_mapFrom_snd P (fun j _ => indexKey j) VString).
  apply List.Forall_forall. intros c _. apply H.
Qed.

Lemma not_expands_string (s : string) : ~ expandsValue (VString s).
Proof. intros [H|[H _]]; discriminate H. Qed.

(** A scheme for properties of the derivation.  [Sub] speaks of the
    sub-fields derived for a value, [Doc] of the nodes derived from a
    value taken as a document.  It is enough that [Sub] holds where
    nothing is derived, that it follows from [Doc] of the documents of the
    value, and that [Doc] follows from [Sub] of the values under the keys
    of the document. *)
Section Derivation.
Variable Sub : Value -> nat -> option (list FieldSchema) -> Prop.
Variable Doc : Value -> nat -> list FieldSchema -> Prop.

Hypothesis Hnone : forall value depth, ~ expandsValue value -> Sub value depth None.
Hypothesis Hsubs :
  forall value depth,
    expandsValue value ->
    Forall (fun doc => forall d, Doc doc d (getSchemaFromArrayDocs [doc] d))
           (docsOf value) ->
    Sub value depth (Some (getSchemaFromArrayDocs (docsOf value) (depth + 1))).
Hypothesis Hdoc :
  forall doc depth,
    Forall (fun kv => forall d, Sub (snd kv) d (getSubFieldsOf (snd kv) d)) (forIn doc) ->
    Doc doc depth (getSchemaFromArrayDocs [doc] depth).

Lemma derivation_sub_step (value : Value) :
  Forall (fun doc => forall d, Doc doc d (getSchemaFromArrayDocs [doc] d)) (docsOf value) ->
  forall depth, Sub value depth (getSubFieldsOf value depth).
Proof.
  intros Hdocs depth. rewrite getSubFieldsOf_eq.
  destruct (getSubFields_expands value depth) as [Hyes Hno].
  destruct (expandsValue_dec value) as [Hexp|Hexp].
  - rewrite (Hyes Hexp). now apply Hsubs.
  - rewrite (Hno Hexp). now apply Hnone.
Qed.

Lemma derivation_both (value : Value) :
  (forall depth, Sub value depth (getSubFieldsOf value depth)) /\
  (forall depth, Doc value depth (getSchemaFromArrayDocs [value] depth)).
Proof.
  assert (Hself : forall v,
             (forall d, Doc v d (getSchemaFromArrayDocs [v] d)) ->
             docsOf v = [v] ->
             forall depth, Sub v depth (getSubFieldsOf v depth)).
  { intros v Hv Hdocs. apply derivation_sub_step. rewrite Hdocs.
    constructor; [exact Hv|constructor]. }
  assert (Hprimitive : forall v,
             forIn v = [] -> docsOf v = [v] ->
             (forall depth, Sub v depth (getSubFieldsOf v depth)) /\
             (forall depth, Doc v depth (getSchemaFromArrayDocs [v] depth))).
  { intros v Hkeys Hdocs.
    assert (Hd : forall d, Doc v d (getSchemaFromArrayDocs [v] d)).
    { intros d. apply Hdoc. rewrite Hkeys. constructor. }
    split; [now apply Hself|exact Hd]. }
  induction value as [| | b | n | s | elems IH | props IH | | n |] using Value_tree_ind;
    try (now apply Hprimitive).
  - assert (Hd : forall d, Doc (VString s) d (getSchemaFromArrayDocs [VString s] d)).
    { intros d. apply Hdoc.
      apply (forIn_string (fun v => forall d, Sub v d (getSubFieldsOf v d))).
      intros c d'. apply Hnone, not_expands_string. }
    split; [now apply Hself|exact Hd].
  - split.
    + apply derivation_sub_step. cbn [docsOf].
      eapply Forall_impl; [exact IH|]. intros doc [_ H]. exact H.
    + intros d. apply Hdoc. cbn [forIn].
      apply (Forall_mapFrom_snd (fun v => forall d, Sub v d (getSubFieldsOf v d))
               (fun j _ => indexKey j) (fun x => x)).
      eapply Forall_impl; [exact IH|]. intros doc [H _]. exact H.
  - assert (Hd : forall d, Doc (VObject props) d
                             (getSchemaFromArrayDocs [VObject props] d)).
    { intros d. apply Hdoc. cbn [forIn].
      eapply Forall_impl; [exact IH|]. intros kv [H _]. exact H. }
    split; [now apply Hself|exact Hd].
Qed.

Lemma derivation_docs (arrayDocs : list Value) :
  Forall (fun doc => forall d, Doc doc d (getSchemaFromArrayDocs [doc] d)) arrayDocs.
Proof. apply List.Forall_forall. intros doc _. apply derivation_both. Qed.
End Derivation.

(** X1. The depth is carried along and never looked at: the nodes derived
    from documents, the sub-fields of a value, the nodes sampled from
    sub-documents and the schema of a collection are the same at every
    depth. *)
Theorem depth_is_ignored (d d' : nat) :
  (forall arrayDocs,
     getSchemaFromArrayDocs arrayDocs d = getSchemaFromArrayDocs arrayDocs d') /\
  (forall value,
     getSubFields value (getFieldType value) d =
     getSubFields value (getFieldType value) d') /\
  (forall db collectionName field,
     getSchemaFromSubDocs db collectionName field d =
     getSchemaFromSubDocs db collectionName field d') /\
  (forall db collectionName,
     getSchema db collectionName d = getSchema db collectionName d').
Proof.
  assert (Hboth : forall value,
             (forall depth depth', getSubFieldsOf value depth = getSubFieldsOf value depth') /\
             (forall depth depth', getSchemaFromArrayDocs [value] depth =
                                   getSchemaFromArrayDocs [value] depth')).
  { intros value.
    destruct (derivation_both
                (fun v depth r => forall depth', r = getSubFieldsOf v depth')
                (fun v depth r => forall depth', r = getSchemaFromArrayDocs [v] depth'))
      with (value := value) as [Hs Hd]; [| | |split; intros; [apply Hs|apply Hd]].
    - intros v depth Hno depth'. rewrite getSubFieldsOf_eq.
      destruct (getSubFields_expands v depth') as [_ H]. now rewrite H.
    - intros v depth Hexp Hdocs depth'. rewrite getSubFieldsOf_eq.
      destruct (getSubFields_expands v depth') as [H _]. rewrite (H Hexp). f_equal.
      rewrite <- !getSchemaFromArrayDocs_singletons. clear H Hexp.
      induction Hdocs as [|doc rest Hdoc _ IH]; [reflexivity|].
      cbn [flat_map]. now rewrite IH, (Hdoc (depth + 1) (depth' + 1)).
    - intros doc depth Hkeys depth'. unfold getSchemaFromArrayDocs. cbn [flat_map].
      f_equal. induction Hkeys as [|kv rest Hkv _ IH]; [reflexivity|].
      cbn [map]. now rewrite IH, (Hkv depth depth'). }
  assert (Hdocs : forall arrayDocs depth depth',
             getSchemaFromArrayDocs arrayDocs depth =
             getSchemaFromArrayDocs arrayDocs depth').
  { intros arrayDocs depth depth'. rewrite <- !getSchemaFromArrayDocs_singletons.
    induction arrayDocs as [|doc rest IH]; [reflexivity|].
    cbn [flat_map]. rewrite IH. f_equal. apply Hboth. }
  assert (HsubDocs : forall db collectionName field depth depth',
             getSchemaFromSubDocs db collectionName field depth =
             getSchemaFromSubDocs db collectionName field depth').
  { intros db collectionName field depth depth'. rewrite !getSchemaFromSubDocs_eq.
    destruct (aggregateSubDocs db collectionName field); [|reflexivity].
    cbn [bind]. now rewrite !getSchemaFromArrayDocs_singletons, (Hdocs _ depth depth'). }
  split; [intros; apply Hdocs|]. split; [|split; [intros; apply HsubDocs|]].
  - intros value. rewrite <- !getSubFieldsOf_eq. apply Hboth.
  - intros db collectionName. unfold getSchema.
    destruct (aggregateTypes db collectionName) as [result|e]; [|reflexivity].
    cbn [bind]. induction result as [|field rest IH]; [reflexivity|].
    cbn [mapAwait]. rewrite IH. f_equal. unfold getSchemaField.
    now rewrite (HsubDocs _ _ _ (d + 1) (d' + 1)).
Qed.

(** ** What single elements of an array contribute *)

Lemma mapFrom_const {A B : Type} (g : nat -> B) (l : list A) (i : nat) :
  mapFrom (fun j _ => g j) i l = map g (seq i (length l)).
Proof.
  revert i. induction l as [|x l IH]; intros i; [reflexivity|].
  cbn [mapFrom length seq map]. now rewrite IH.
Qed.

(** A string of ASCII characters has one code unit per byte. *)
Lemma codeUnits_ascii (s : string) :
  Forall (fun b => (N_of_ascii b < 128)%N) (list_ascii_of_string s) ->
  codeUnits s = map (fun b => String b EmptyString) (list_ascii_of_string s).
Proof.
  induction s as [|b s IH]; intros Hall; [reflexivity|].
  cbn [list_ascii_of_string] in Hall. inversion Hall as [|? ? Hb Hrest]; subst.
  cbn [codeUnits list_ascii_of_string map].
  assert (Hlt : (N_of_ascii b <? 192)%N = true) by (apply N.ltb_lt; lia).
  rewrite Hlt. now rewrite IH.
Qed.

Lemma getSchemaFromArrayDocs_cons (doc : Value) (rest : list Value) (depth : nat) :
  getSchemaFromArrayDocs (doc :: rest) depth =
  (getSchemaFromArrayDocs [doc] depth ++ getSchemaFromArrayDocs rest depth)%list.
Proof. apply (getSchemaFromArrayDocs_app [doc] rest). Qed.

(** X2. A string among the documents is enumerated code unit by code
    unit: wherever it stands, a string of n UTF-16 code units adds n nodes
    named ["0"] to n-1, each of type ["string"] and without sub-fields.
    The string of the bytes 104, 195 and 169, an h and an e with an acute
    accent, has two code units and adds the nodes ["0"] and ["1"]. *)
Theorem string_element_adds_index_nodes (before after : list Value) (s : string)
    (depth : nat) :
  getSchemaFromArrayDocs (before ++ VString s :: after) depth =
  (getSchemaFromArrayDocs before depth ++
   map (fun i => mkField (indexKey i) ["string"] None) (seq 0 (length (codeUnits s))) ++
   getSchemaFromArrayDocs after depth)%list /\
  getSchemaFromArrayDocs
    [VString (String "h" (String (ascii_of_N 195) (String (ascii_of_N 169) EmptyString)))]
    depth = [mkField "0" ["string"] None; mkField "1" ["string"] None].
Proof.
  split; [|reflexivity].
  rewrite getSchemaFromArrayDocs_app, getSchemaFromArrayDocs_cons. do 2 f_equal.
  unfold getSchemaFromArrayDocs. cbn [flat_map forIn]. rewrite app_nil_r.
  rewrite map_mapFrom. cbn [fst snd getSubFieldsOf getFieldType isArray typeof].
  now rewrite mapFrom_const.
Qed.

(** X3. [undefined], [null], a boolean and a number among the documents
    are passed over: they add no node and raise no error. *)
Theorem primitive_element_adds_nothing (before after : list Value) (doc : Value)
    (depth : nat) :
  match doc with
  | VUndefined | VNull | VBoolean _ | VNumber _ => True
  | _ => False
  end ->
  getSchemaFromArrayDocs (before ++ doc :: after) depth =
  getSchemaFromArrayDocs (before ++ after) depth.
Proof.
  intros Hdoc. rewrite !getSchemaFromArrayDocs_app, getSchemaFromArrayDocs_cons.
  f_equal. destruct doc; try destruct Hdoc; reflexivity.
Qed.

Lemma primitive_element_adds_nothing_witness :
  getSchemaFromArrayDocs ([VObject [("a", VNumber 1)]] ++ VNull :: [VNumber 7]) 1 =
  getSchemaFromArrayDocs ([VObject [("a", VNumber 1)]] ++ [VNumber 7]) 1.
Proof. apply primitive_element_adds_nothing. exact I. Defined.

(** X4. An array among the documents is enumerated by index: it adds one
    node per element, named by the position and typed by the element. *)
Theorem array_element_adds_index_nodes (elems : list Value) (depth : nat) :
  map name (getSchemaFromArrayDocs [VArray elems] depth) =
    map indexKey (seq 0 (length elems)) /\
  map types (getSchemaFromArrayDocs [VArray elems] depth) =
    map (fun x => [getFieldType x]) elems.
Proof.
  unfold getSchemaFromArrayDocs. cbn [flat_map forIn]. rewrite app_nil_r.
  rewrite !map_mapFrom. cbn [name types fst snd]. split.
  - apply mapFrom_const.
  - generalize 0. induction elems as [|x rest IH]; intros i; [reflexivity|].
    cbn [mapFrom map]. now rewrite IH.
Qed.

(** X5. Empty and null values under a key: [null] and an empty object
    both give a node of type ["object"] with an empty list of sub-fields,
    an empty array a node of type ["array"] without sub-fields. *)
Theorem empty_values_under_a_key (props : list (string * Value)) (key : string)
    (value : Value) (depth : nat) :
  In (key, value) props ->
  match value with
  | VNull | VObject [] =>
      In (mkField key ["object"] (Some []))
         (getSchemaFromArrayDocs [VObject props] depth)
  | VArray [] =>
      In (mkField key ["array"] None)
         (getSchemaFromArrayDocs [VObject props] depth)
  | _ => True
  end.
Proof.
  intros Hin. unfold getSchemaFromArrayDocs. cbn [flat_map forIn].
  rewrite app_nil_r.
  destruct value as [| | b | n | s | [|x elems] | [|kv props'] | | n |]; try exact I;
    apply in_map_iff; eexists; (split; [|exact Hin]); reflexivity.
Qed.

Lemma empty_values_under_a_key_witness :
  In (mkField "deletedAt" ["object"] (Some []))
     (getSchemaFromArrayDocs
        [VObject [("name", VString "Al"); ("deletedAt", VNull)]] 1).
Proof.
  apply (empty_values_under_a_key _ "deletedAt" VNull 1). right. left. reflexivity.
Defined.

(** ** The labels of the derived nodes *)

Lemma getFieldType_typeTags (value : Value) : In (getFieldType value) typeTags.
Proof. destruct value; cbn; tauto. Qed.

Lemma treeNodes_app (l1 l2 : list FieldSchema) :
  treeNodes (l1 ++ l2) = (treeNodes l1 ++ treeNodes l2)%list.
Proof. apply flat_map_app. Qed.

Lemma treeNodes_derived (arrayDocs : list Value) (depth : nat) :
  Forall hasOneTag (treeNodes (getSchemaFromArrayDocs arrayDocs depth)).
Proof.
  assert (Hdocs := derivation_docs
            (fun _ _ r => forall subs, r = Some subs -> Forall hasOneTag (treeNodes subs))
            (fun _ _ r => Forall hasOneTag (treeNodes r))).
  rewrite <- getSchemaFromArrayDocs_singletons.
  cut (Forall (fun doc => forall d,
                 Forall hasOneTag (treeNodes (getSchemaFromArrayDocs [doc] d)))
              arrayDocs).
  { induction 1 as [|doc rest Hdoc _ IH]; [constructor|].
    cbn [flat_map]. rewrite treeNodes_app. apply Forall_app. split; [apply Hdoc|exact IH]. }
  apply Hdocs; clear Hdocs arrayDocs depth.
  - intros value depth _ subs Hsubs. discriminate Hsubs.
  - intros value depth _ Hdocs subs [= <-].
    rewrite <- getSchemaFromArrayDocs_singletons.
    induction Hdocs as [|doc rest Hdoc _ IH]; [constructor|].
    cbn [flat_map]. rewrite treeNodes_app. apply Forall_app. split; [apply Hdoc|exact IH].
  - intros doc depth Hkeys. unfold getSchemaFromArrayDocs. cbn [flat_map].
    rewrite app_nil_r.
    induction Hkeys as [|kv rest Hkv _ IH]; [constructor|].
    cbn [map treeNodes flat_map nodesBelow subFields]. constructor.
    + exists (getFieldType (snd kv)). split; [reflexivity|apply getFieldType_typeTags].
    + apply Forall_app. split; [|exact IH].
      destruct (getSubFieldsOf (snd kv) depth) as [subs|] eqn:Hsubs; [|constructor].
      apply (Hkv depth subs). exact Hsubs.
Qed.

(** X6. Every node derived from documents, at every level of the tree,
    carries exactly one type, and it is one of the nine labels of the type
    sampler: ["array"] and the eight results of [typeof]. *)
Theorem derived_nodes_have_one_tag (arrayDocs : list Value) (depth : nat) :
  Forall hasOneTag (treeNodes (getSchemaFromArrayDocs arrayDocs depth)).
Proof. apply treeNodes_derived. Qed.

(** The nodes behind the traversal of the flattener. *)
Lemma nodesOfField_nodesBelow (field : FieldSchema) :
  forall parentField entry,
    In entry (nodesOfField parentField field) ->
    exists node, In node (nodesBelow field) /\ snd entry = join (types node).
Proof.
  induction field as [n tys|n tys subs IH] using FieldSchema_tree_ind;
    intros parentField entry; cbn [nodesOfField nodesBelow name types subFields].
  - intros [<-|[]]. eexists. split; [left; reflexivity|reflexivity].
  - intros [<-|Hin]; [eexists; split; [left; reflexivity|reflexivity]|].
    apply in_flat_map in Hin as (sub & Hsub & Hin). rewrite List.Forall_forall in IH.
    destruct (IH sub Hsub _ _ Hin) as (node & Hnode & Hentry).
    exists node. split; [|exact Hentry]. right. apply in_flat_map. now exists sub.
Qed.

(** X7. The flattener invents nothing: every entry of the flattened
    fields pairs the dotted path of a node of the tree with the joined
    types of a node; flattening fields derived from documents, every value
    of the map is therefore one of the nine labels of the type sampler. *)
Theorem flattened_values_are_tags (filtered : list string) (parentField : string)
    (p tys : string) :
  (forall fields,
     flattenFields filtered fields parentField !! p = Some tys ->
     In (p, tys) (nodes parentField fields) /\
     exists node, In node (treeNodes fields) /\ tys = join (types node)) /\
  (forall arrayDocs depth,
     flattenFields filtered (getSchemaFromArrayDocs arrayDocs depth) parentField !! p
       = Some tys ->
     In tys typeTags).
Proof.
  assert (Hentry : forall fields,
             flattenFields filtered fields parentField !! p = Some tys ->
             In (p, tys) (nodes parentField fields) /\
             exists node, In node (treeNodes fields) /\ tys = join (types node)).
  { intros fields Hlookup. rewrite flattenFields_visited in Hlookup.
    apply elem_of_list_to_map_2, list_elem_of_In in Hlookup.
    rewrite <- in_rev in Hlookup.
    apply stored_In in Hlookup as [Hin _]. apply visited_spec in Hin as [Hin _].
    split; [exact Hin|]. unfold nodes in Hin.
    apply in_flat_map in Hin as (field & Hfield & Hin).
    destruct (nodesOfField_nodesBelow _ _ _ Hin) as (node & Hnode & Htys).
    exists node. split; [|exact Htys]. apply in_flat_map. now exists field. }
  split; [exact Hentry|].
  intros arrayDocs depth Hlookup.
  destruct (Hentry _ Hlookup) as [_ (node & Hnode & ->)].
  pose proof (treeNodes_derived arrayDocs depth) as Hall.
  rewrite List.Forall_forall in Hall.
  destruct (Hall node Hnode) as (tag & -> & Htag). exact Htag.
Qed.

(** * Further properties of the discovery *)

Lemma mapAwait_rejects {A B : Type} (body : A -> Outcome B)
    (before : list A) (x : A) (after : list A) (e : Err) :
  Forall (fun y => exists r, body y = Resolved r) before ->
  body x = Rejected e ->
  mapAwait body (before ++ x :: after) = Rejected e.
Proof.
  intros Hbefore Hx. induction Hbefore as [|y l [r Hy] _ IH]; cbn [app mapAwait].
  - now rewrite Hx.
  - rewrite Hy. cbn [bind]. now rewrite IH.
Qed.

Lemma reportedType_first (field : Group) :
  ~ In "object" (groupTypes field) -> reportedType field = types0 field.
Proof.
  intros Hno. unfold reportedType.
  destruct (includesType (groupTypes field) "object") eqn:Hinc; [|reflexivity].
  apply includesType_In in Hinc. contradiction.
Qed.

(** X8. A collection none of whose keys was seen with an object: whatever
    the store would answer to a sub-document query, [getSchema] resolves
    with one node per row, without sub-fields, whose type is the first
    member of the row's type set. *)
Theorem getSchema_without_objects (db : Db) (collectionName : string) (depth : nat)
    (result : list Group) :
  aggregateTypes db collectionName = Resolved result ->
  Forall (fun field => ~ In "object" (groupTypes field)) result ->
  getSchema db collectionName depth =
  Resolved (map (fun field => mkField (_id field) [types0 field] None) result).
Proof.
  intros Hresult Hno. unfold getSchema. rewrite Hresult. cbn [bind].
  apply mapAwait_Resolved. clear Hresult.
  induction Hno as [|field rest Hfield _ IH]; cbn [map]; constructor; [|exact IH].
  unfold getSchemaField. rewrite (reportedType_first _ Hfield).
  destruct (String.eqb_spec (types0 field) "object") as [Hobj|_]; [|reflexivity].
  exfalso. apply Hfield. left. exact Hobj.
Qed.

Lemma getSchema_without_objects_witness :
  getSchema
    (mkDb (Resolved ["logs"])
          (fun _ => Resolved [mkGroup "level" "string" ["number"];
                              mkGroup "tags" "array" []])
          (fun _ _ => Rejected "not reached"))
    "logs" 0 =
  Resolved (map (fun field => mkField (_id field) [types0 field] None)
                [mkGroup "level" "string" ["number"]; mkGroup "tags" "array" []]).
Proof.
  apply getSchema_without_objects; [reflexivity|].
  repeat constructor; cbn; intros H; repeat (destruct H as [H|H]; [discriminate H|]);
    exact H.
Defined.

(** X9. A failing query fails the discovery of the collection: when the
    type aggregation rejects, or the sub-document query of a row with an
    object rejects after the rows before it went through, [getSchema]
    rejects with that error and returns no node. *)
Theorem getSchema_rejects (db : Db) (collectionName : string) (depth : nat) (e : Err) :
  aggregateTypes db collectionName = Rejected e \/
  (exists before field after,
     aggregateTypes db collectionName = Resolved (before ++ field :: after)%list /\
     Forall (fun row =>
               In "object" (groupTypes row) ->
               exists subDocs,
                 aggregateSubDocs db collectionName (_id row) = Resolved subDocs)
            before /\
     In "object" (groupTypes field) /\
     aggregateSubDocs db collectionName (_id field) = Rejected e) ->
  getSchema db collectionName depth = Rejected e.
Proof.
  unfold getSchema.
  intros [Hresult|(before & field & after & Hresult & Hbefore & Hobj & Hfail)];
    rewrite Hresult; cbn [bind]; [reflexivity|].
  apply mapAwait_rejects.
  - eapply Forall_impl; [exact Hbefore|]. intros row Hrow.
    apply getSchemaField_total. intros Hinc. apply Hrow. now apply includesType_In.
  - unfold getSchemaField.
    rewrite (reportedType_object field) by now apply includesType_In.
    cbn [String.eqb]. rewrite getSchemaFromSubDocs_eq, Hfail. reflexivity.
Qed.

Lemma getSchema_rejects_witness :
  getSchema
    (mkDb (Resolved ["users"])
          (fun _ => Resolved [mkGroup "name" "string" [];
                              mkGroup "address" "string" ["object"]])
          (fun _ _ => Rejected "timeout"))
    "users" 0 = Rejected "timeout".
Proof.
  apply getSchema_rejects. right.
  exists [mkGroup "name" "string" []], (mkGroup "address" "string" ["object"]), [].
  split; [reflexivity|]. split; [|split; [right; left; reflexivity|reflexivity]].
  constructor; [|constructor]. cbn. intros [H|[]]. discriminate H.
Defined.

Lemma forEachAwait_generate (db : Db) (collections : list string) :
  Forall (fun c => exists s, getSchema db c 0 = Resolved s) collections ->
  forall acc : SchemaObject,
  exists schema,
    forEachAwait
      (fun schema collectionName =>
         await s <- getSchema db collectionName 0;
         Resolved (setCollection collectionName s schema))
      collections acc = Resolved schema /\
    (forall c s, In c collections -> c <> "__proto__" ->
                 getSchema db c 0 = Resolved s ->
                 ownProps schema !! c = Some s) /\
    (forall c, ~ In c collections \/ c = "__proto__" ->
               ownProps schema !! c = ownProps acc !! c) /\
    (forall s, In "__proto__" collections ->
               getSchema db "__proto__" 0 = Resolved s ->
               prototype schema = Some s) /\
    (~ In "__proto__" collections -> prototype schema = prototype acc).
Proof.
  induction 1 as [|x rest [sx Hx] _ IH]; intros acc; cbn [forEachAwait].
  - exists acc. split; [reflexivity|].
    split; [intros c s []|]. split; [reflexivity|].
    split; [intros s []|reflexivity].
  - rewrite Hx. cbn [bind].
    destruct (IH (setCollection x sx acc)) as (schema & Hrun & Hin & Hout & Hproto & Hnone).
    exists schema. split; [exact Hrun|].
    unfold setCollection in Hout, Hnone.
    destruct (String.eqb_spec x "__proto__") as [-> | Hx'];
      cbn [ownProps prototype] in Hout, Hnone.
    + split; [|split; [|split]].
      * intros c s [<- | Hc] Hne Hs; [contradiction|]. now apply Hin.
      * intros c [Hc | ->].
        -- destruct (String.eqb_spec c "__proto__") as [-> | Hne];
             apply Hout; [now right|left].
           intros Hrest. apply Hc. now right.
        -- apply Hout. now right.
      * intros s _ Hs. destruct (in_dec string_dec "__proto__" rest) as [Hrest|Hrest].
        -- now apply Hproto.
        -- rewrite (Hnone Hrest). congruence.
      * intros Hno. exfalso. apply Hno. now left.
    + split; [|split; [|split]].
      * intros c s Hc Hne Hs. destruct (in_dec string_dec c rest) as [Hrest|Hrest].
        -- now apply Hin.
        -- destruct Hc as [<- | Hc]; [|contradiction].
           rewrite (Hout x (or_introl Hrest)), lookup_insert_eq. congruence.
      * intros c [Hc | ->].
        -- rewrite (Hout c) by (left; intros H; apply Hc; now right).
           apply lookup_insert_ne. intros ->. apply Hc. now left.
        -- rewrite (Hout "__proto__") by now right.
           now apply lookup_insert_ne.
      * intros s [Heq|Hrest] Hs; [contradiction|]. now apply Hproto.
      * intros Hno. apply Hnone. intros H. apply Hno. now right.
Qed.

(** X10. When the listing and the discovery of every listed collection
    resolve, [generateSchemaForAllCollections] resolves with a schema
    object that holds, as its own property under each listed name other
    than ["__proto__"], what [getSchema] gave for it, and has no own
    property under any other name.  A collection named ["__proto__"] is
    not stored as a property: what [getSchema] gave for it becomes the
    prototype of the schema object, which otherwise has none of its
    own. *)
Theorem generate_resolves (db : Db) (collections : list string) :
  listCollections db = Resolved collections ->
  Forall (fun c => exists s, getSchema db c 0 = Resolved s) collections ->
  exists schema,
    generateSchemaForAllCollections db = Resolved schema /\
    (forall c s, In c collections -> c <> "__proto__" ->
                 getSchema db c 0 = Resolved s ->
                 ownProps schema !! c = Some s) /\
    (forall c, ~ In c collections \/ c = "__proto__" -> ownProps schema !! c = None) /\
    (forall s, In "__proto__" collections ->
               getSchema db "__proto__" 0 = Resolved s ->
               prototype schema = Some s) /\
    (~ In "__proto__" collections -> prototype schema = None).
Proof.
  intros Hlist Hall. unfold generateSchemaForAllCollections. rewrite Hlist. cbn [bind].
  destruct (forEachAwait_generate db collections Hall (mkSchemaObject ∅ None))
    as (schema & Hrun & Hin & Hout & Hproto & Hnone).
  exists schema. split; [exact Hrun|]. split; [exact Hin|].
  split; [|split; [exact Hproto|exact Hnone]].
  intros c Hc. rewrite (Hout c Hc). apply lookup_empty.
Qed.

Lemma generate_resolves_witness :
  exists schema,
    generateSchemaForAllCollections
      (memDb getFieldType [("users", usersDocs); ("__proto__", tagsDocs)])
      = Resolved schema /\
    (forall c s, In c ["users"; "__proto__"] -> c <> "__proto__" ->
                 getSchema (memDb getFieldType [("users", usersDocs); ("__proto__", tagsDocs)])
                   c 0 = Resolved s ->
                 ownProps schema !! c = Some s) /\
    (forall c, ~ In c ["users"; "__proto__"] \/ c = "__proto__" ->
               ownProps schema !! c = None) /\
    (forall s, In "__proto__" ["users"; "__proto__"] ->
               getSchema (memDb getFieldType [("users", usersDocs); ("__proto__", tagsDocs)])
                 "__proto__" 0 = Resolved s ->
               prototype schema = Some s) /\
    (~ In "__proto__" ["users"; "__proto__"] -> prototype schema = None).
Proof.
  apply generate_resolves; [reflexivity|].
  constructor; [|constructor; [|constructor]]; eexists; reflexivity.
Defined.

(** * Further properties of the flattener *)

Lemma filter_flat_map {A B : Type} (keep : B -> bool) (f : A -> list B) (l : list A) :
  List.filter keep (flat_map f l) = flat_map (fun x => List.filter keep (f x)) l.
Proof.
  induction l as [|x l IH]; [reflexivity|].
  cbn [flat_map]. now rewrite List.filter_app, IH.
Qed.

Lemma filter_nothing {A : Type} (keep : A -> bool) (l : list A) :
  (forall x, In x l -> keep x = false) -> List.filter keep l = [].
Proof.
  induction l as [|x l IH]; intros H; [reflexivity|].
  cbn [List.filter]. rewrite (H x) by now left. apply IH. intros y Hy. apply H. now right.
Qed.

Lemma isFiltered_subtree_entries (filtered : list string) (field : FieldSchema)
    (parentField : string) :
  isFiltered filtered (fieldPath parentField (name field)) = true ->
  forall entry,
    In entry (nodesOfField parentField field) ->
    negb (isFiltered filtered (fst entry)) = false.
Proof.
  intros Hf entry Hin.
  rewrite (isFiltered_subtree filtered field parentField (fst entry) Hf);
    [reflexivity|now apply in_map].
Qed.

(** The visited nodes, as the nodes that pass the filter. *)
Lemma visitedOfField_filter (filtered : list string) (field : FieldSchema) :
  forall parentField,
    visitedOfField filtered parentField field =
    List.filter (fun entry => negb (isFiltered filtered (fst entry)))
                (nodesOfField parentField field).
Proof.
  induction field as [n tys|n tys subs IH] using FieldSchema_tree_ind; intros parentField;
    (destruct (isFiltered filtered (fieldPath parentField n)) eqn:Hf;
     [ rewrite filter_nothing;
       [ cbn [visitedOfField name]; now rewrite Hf
       | apply isFiltered_subtree_entries; exact Hf ]
     | cbn [visitedOfField nodesOfField name types subFields List.filter fst];
       rewrite Hf; cbn [negb] ]); [reflexivity|].
  f_equal. rewrite filter_flat_map.
  induction IH as [|sub rest Hsub _ IHrest]; [reflexivity|].
  cbn [flat_map]. now rewrite Hsub, IHrest.
Qed.

Lemma visited_filter (filtered : list string) (parentField : string)
    (fields : list FieldSchema) :
  visited filtered parentField fields =
  List.filter (fun entry => negb (isFiltered filtered (fst entry)))
              (nodes parentField fields).
Proof.
  unfold visited, nodes. rewrite filter_flat_map. apply flat_map_ext.
  intros field. apply visitedOfField_filter.
Qed.

Lemma list_to_map_filter_keys (keep : string -> bool) (l : list (string * string))
    (p : string) :
  (list_to_map (List.filter (fun entry => keep (fst entry)) l) : gmap string string) !! p
  = if keep p then (list_to_map l : gmap string string) !! p else None.
Proof.
  induction l as [|[k v] l IH]; cbn [List.filter fst].
  - rewrite list_to_map_nil, lookup_empty. now destruct (keep p).
  - destruct (keep k) eqn:Hk; rewrite ?list_to_map_cons.
    + destruct (decide (k = p)) as [->|Hne].
      * now rewrite !lookup_insert_eq, Hk.
      * now rewrite !lookup_insert_ne, IH by exact Hne.
    + rewrite IH. destruct (keep p) eqn:Hp; [|reflexivity].
      rewrite lookup_insert_ne; [reflexivity|]. intros ->. congruence.
Qed.

Lemma stored_filter (keep : string * string -> bool) (l : list (string * string)) :
  stored (List.filter keep l) = List.filter keep (stored l).
Proof.
  unfold stored. induction l as [|entry l IH]; [reflexivity|].
  cbn [List.filter].
  destruct (keep entry) eqn:Hk, (negb (fst entry =? "__proto__")) eqn:Hs;
    cbn [List.filter]; rewrite ?Hk, ?Hs, IH; reflexivity.
Qed.

(** X11. The filter only removes entries: flattening with a list of
    filtered fields gives the map that flattening without any gives, less
    the entries whose path holds a filtered substring; the entries that
    stay keep their value. *)
Theorem flatten_then_filter (filtered : list string) (fields : list FieldSchema)
    (parentField : string) :
  flattenFields filtered fields parentField =
  filter (fun entry => isFiltered filtered (fst entry) = false)
         (flattenFields [] fields parentField).
Proof.
  apply map_eq. intros p. apply option_eq. intros tys.
  rewrite map_lookup_filter_Some. cbn [fst].
  rewrite !flattenFields_visited, (visited_nodes [] parentField fields) by reflexivity.
  rewrite visited_filter, stored_filter, <- List.filter_rev.
  rewrite (list_to_map_filter_keys (fun k => negb (isFiltered filtered k))).
  destruct (isFiltered filtered p); cbn [negb]; intuition congruence.
Qed.




(** X13. Flattening a sequence of fields that is the concatenation of two
    gives the union of the two flattened maps in which the entries of the
    second win: of two sampled sub-documents that share a path, the later
    one decides the type that is reported. *)
Theorem flatten_concatenation (filtered : list string) (first second : list FieldSchema)
    (parentField : string) :
  flattenFields filtered (first ++ second) parentField =
    flattenFields filtered second parentField ∪ flattenFields filtered first parentField /\
  (forall p tys,
     flattenFields filtered second parentField !! p = Some tys ->
     flattenFields filtered (first ++ second) parentField !! p = Some tys).
Proof.
  assert (Heq : flattenFields filtered (first ++ second) parentField =
                flattenFields filtered second parentField ∪
                flattenFields filtered first parentField).
  { rewrite !flattenFields_visited. unfold visited.
    now rewrite flat_map_app, stored_app, rev_app_distr, list_to_map_app. }
  split; [exact Heq|].
  intros p tys Hp. rewrite Heq. now apply lookup_union_Some_l.
Qed.

Lemma string_app_nonempty (s t : string) : s <> "" -> s ++ t <> "".
Proof. destruct s as [|c s]; [congruence|]. intros _. rewrite append_cons. discriminate. Qed.

Lemma nodesOfField_extend (field : FieldSchema) :
  forall parentField entry,
    parentField <> "" ->
    In entry (nodesOfField parentField field) ->
    exists rest, fst entry = parentField ++ "." ++ rest.
Proof.
  induction field as [n tys|n tys subs IH] using FieldSchema_tree_ind;
    intros parentField entry Hparent; cbn [nodesOfField name types subFields];
    (assert (Hroot : fieldPath parentField n = parentField ++ "." ++ n)
       by (unfold fieldPath; now destruct (String.eqb_spec parentField ""))).
  - intros [<-|[]]. now exists n.
  - intros [<-|Hin]; [now exists n|].
    apply in_flat_map in Hin as (sub & Hsub & Hin). rewrite List.Forall_forall in IH.
    destruct (IH sub Hsub (fieldPath parentField n) entry) as [rest Hrest].
    + rewrite Hroot. now apply string_app_nonempty.
    + exact Hin.
    + exists (n ++ "." ++ rest). rewrite Hrest, Hroot.
      now rewrite !string_app_assoc.
Qed.

(** X14. Below a parent every key carries the parent's path: the keys of
    the map flattened for the sub-fields of a node with a non-empty path
    all begin with that path and a dot. *)
Theorem flattened_keys_extend_parent (filtered : list string) (fields : list FieldSchema)
    (parentField p : string) :
  parentField <> "" ->
  is_Some (flattenFields filtered fields parentField !! p) ->
  exists rest, p = parentField ++ "." ++ rest.
Proof.
  intros Hparent Hsome. apply flattenFields_is_Some in Hsome as [Hin _].
  unfold paths, nodes in Hin. apply in_map_iff in Hin as (entry & <- & Hin).
  apply in_flat_map in Hin as (field & _ & Hin).
  now apply (nodesOfField_extend field parentField).
Qed.

Lemma flattened_keys_extend_parent_witness :
  exists rest, "address.city" = "address" ++ "." ++ rest.
Proof.
  apply (flattened_keys_extend_parent [".buffer"; "__v"]
           [mkField "city" ["string"] None] "address" "address.city").
  - discriminate.
  - vm_compute. now eexists.
Defined.

(** * Further properties of [connect] *)





(** X17. An instance does not own its options: after a later call of
    [connect] supplied a list of filtered fields, the method
    [flattenSchema] of an instance created before that call filters with
    the new list. *)
Theorem earlier_instance_uses_later_filter (st st1 : ClassState)
    (mongoClient later : MongoClient) (databaseName laterName : string)
    (opts0 : option OptionsArg) (opts : Options) (custom : list string)
    (this : Instance) (schema : gmap string (list FieldSchema)) :
  connect st mongoClient databaseName opts0 = (Resolved this, st1) ->
  filteredFields opts = Some custom ->
  instanceFlattenSchema (snd (connect st1 later laterName (Some opts))) this schema =
  (Resolved (flattenSchema custom schema), snd (connect st1 later laterName (Some opts))).
Proof.
  intros Hconnect Hcustom. apply connect_instance in Hconnect as (Href & _ & _).
  unfold instanceFlattenSchema. rewrite Href. cbn [deref].
  rewrite connect_defaultOptions. unfold objectAssign, plainOptions.
  cbn [filteredFields argFilteredFields]. now rewrite Hcustom.
Qed.

Lemma earlier_instance_uses_later_filter_witness :
  instanceFlattenSchema
    (snd (connect (snd (connect initialState emptyClient "shop" None))
            deadClient "blog" (Some (mkOptions (Some ["address"]) None))))
    (mkInstance (clientDb emptyClient "shop") DefaultOptionsRef) usersFullSchema =
  (Resolved (flattenSchema ["address"] usersFullSchema),
   snd (connect (snd (connect initialState emptyClient "shop" None))
          deadClient "blog" (Some (mkOptions (Some ["address"]) None)))).
Proof.
  apply (earlier_instance_uses_later_filter initialState _ emptyClient deadClient
           "shop" "blog" None (mkOptions (Some ["address"]) None) ["address"]);
    reflexivity.
Defined.

(** * The runner *)

(** What [persist] leaves behind: the files come in order, the flattened
    one right after the schema, the client is closed only after both. *)
Lemma persist_effects (host : Host) (schema : gmap string (list FieldSchema))
    (flattened : gmap string (gmap string string)) :
  let made := if existsSync host then [] else [MadeDir] in
  (fst (persist host schema flattened) = Resolved tt ->
   snd (persist host schema flattened) =
   (made ++ [WroteSchema schema; WroteFlattened flattened; ClosedClient])%list) /\
  (forall flattened',
     In (WroteFlattened flattened') (snd (persist host schema flattened)) ->
     flattened' = flattened /\
     exists closing,
       snd (persist host schema flattened) =
       (made ++ [WroteSchema schema; WroteFlattened flattened] ++ closing)%list /\
       (closing = [] \/ closing = [ClosedClient])) /\
  (In ClosedClient (snd (persist host schema flattened)) ->
   fst (persist host schema flattened) = Resolved tt).
Proof.
  unfold persist.
  destruct (existsSync host), (mkdirSync host) as [[]|], (writeSchemaFile host) as [[]|],
    (writeFlattenedFile host) as [[]|], (close host) as [[]|];
    cbn [fst snd app In]; (split; [|split]); try discriminate; try reflexivity;
    try (intros flattened' Hin;
         repeat (destruct Hin as [Hin|Hin]; [try discriminate Hin|]);
         try (destruct Hin; fail);
         injection Hin as <-; split; [reflexivity|];
         first [ now (exists []; split; [reflexivity|left])
               | now (exists [ClosedClient]; split; [reflexivity|right]) ]);
    intros; intuition (try discriminate).
Qed.

(** The two ways a run of [main] ends: before anything was written, with
    an error; or in [persist], after the connection, the discovery and the
    flattening all went through. *)
Lemma main_cases (st st' : ClassState) (mongoClient : MongoClient)
    (databaseName : string) (host : Host) (effects : list Effect) (outcome : Outcome unit) :
  main st mongoClient databaseName host = (outcome, effects, st') ->
  (effects = [] /\ exists e, outcome = Rejected e) \/
  (exists schema flattened,
     clientConnect mongoClient = Resolved tt /\
     generateSchemaForAllCollections (clientDb mongoClient databaseName) = Resolved schema /\
     inheritedKeys schema = [] /\
     flattenSchemaWith (filteredFields (defaultOptions st)) (ownProps schema)
       = Resolved flattened /\
     defaultOptions st' = defaultOptions st /\
     persist host (ownProps schema) flattened = (outcome, effects)).
Proof.
  unfold main. intros Hmain.
  assert (Hoptions : defaultOptions (snd (connect st mongoClient databaseName None))
                     = defaultOptions st) by apply connect_defaultOptions.
  destruct (connect st mongoClient databaseName None) as [[tool|e] st1] eqn:Hconnect;
    [|injection Hmain as <- <- _; left; split; [reflexivity|now exists e]].
  assert (Hclient : clientConnect mongoClient = Resolved tt).
  { unfold connect in Hconnect.
    destruct (clientConnect mongoClient) as [[]|]; [reflexivity|discriminate Hconnect]. }
  apply connect_instance in Hconnect as (Href & Hdb & _).
  rewrite Hdb in Hmain. cbn [snd] in Hoptions.
  destruct (generateSchemaForAllCollections (clientDb mongoClient databaseName))
    as [schema|e]; [|injection Hmain as <- <- _; left; split; [reflexivity|now exists e]].
  unfold flattenGenerated, instanceFlattenSchema in Hmain.
  rewrite Href in Hmain. cbn [deref] in Hmain. rewrite Hoptions in Hmain.
  destruct (inheritedKeys schema) as [|key keys] eqn:Hkeys;
    [|injection Hmain as <- <- _; left; split; [reflexivity|now eexists]].
  destruct (flattenSchemaWith (filteredFields (defaultOptions st)) (ownProps schema))
    as [flattened|e] eqn:Hflat;
    [|injection Hmain as <- <- _; left; split; [reflexivity|now exists e]].
  injection Hmain as Hpersist <-.
  right. exists schema, flattened. repeat (split; [reflexivity || assumption|]).
  destruct (persist host (ownProps schema) flattened) as [o effs].
  now injection Hpersist as -> ->.
Qed.

(** X18. A run of [main] that reaches [process.exit(0)]: the client's
    [connect] resolved and every collection was discovered; no collection
    stands in the prototype of the schema object with a field; the two
    files hold the own properties of the discovered schema and their
    flattening by the configured filtered fields, written in that order
    after the directory was made if it was missing, and the client was
    closed last.  The run did not change the shared options. *)
Theorem main_exit_0 (st st' : ClassState) (mongoClient : MongoClient)
    (databaseName : string) (host : Host) (effects : list Effect) (outcome : Outcome unit) :
  main st mongoClient databaseName host = (outcome, effects, st') ->
  exitCode outcome = 0 ->
  exists schema flattened,
    clientConnect mongoClient = Resolved tt /\
    generateSchemaForAllCollections (clientDb mongoClient databaseName) = Resolved schema /\
    inheritedKeys schema = [] /\
    flattenSchemaWith (filteredFields (defaultOptions st)) (ownProps schema)
      = Resolved flattened /\
    (forall configured,
       filteredFields (defaultOptions st) = Some configured ->
       flattened = flattenSchema configured (ownProps schema)) /\
    defaultOptions st' = defaultOptions st /\
    effects =
      ((if existsSync host then [] else [MadeDir]) ++
       [WroteSchema (ownProps schema); WroteFlattened flattened; ClosedClient])%list.
Proof.
  intros Hmain Hexit.
  destruct (main_cases _ _ _ _ _ _ _ Hmain)
    as [[_ [e ->]]|(schema & flattened & Hclient & Hgen & Hkeys & Hflat & Hopts & Hpersist)];
    [discriminate Hexit|].
  exists schema, flattened.
  split; [exact Hclient|]. split; [exact Hgen|]. split; [exact Hkeys|].
  split; [exact Hflat|]. split; [|split; [exact Hopts|]].
  - intros configured Hc. rewrite Hc in Hflat. cbn [flattenSchemaWith] in Hflat.
    now injection Hflat.
  - destruct (persist_effects host (ownProps schema) flattened) as [Hok _].
    rewrite Hpersist in Hok. cbn [fst snd] in Hok. apply Hok.
    destruct outcome as [[]|]; [reflexivity|discriminate Hexit].
Qed.

Lemma main_exit_0_witness :
  exists schema flattened,
    clientConnect (mkMongoClient (Resolved tt)
                     (fun _ => memDb getFieldType [("users", usersDocs)])) = Resolved tt /\
    generateSchemaForAllCollections
      (clientDb (mkMongoClient (Resolved tt)
                   (fun _ => memDb getFieldType [("users", usersDocs)])) "shop")
      = Resolved schema /\
    inheritedKeys schema = [] /\
    flattenSchemaWith (filteredFields (defaultOptions initialState)) (ownProps schema)
      = Resolved flattened /\
    (forall configured,
       filteredFields (defaultOptions initialState) = Some configured ->
       flattened = flattenSchema configured (ownProps schema)) /\
    defaultOptions
      (snd (connect initialState
              (mkMongoClient (Resolved tt)
                 (fun _ => memDb getFieldType [("users", usersDocs)])) "shop" None))
      = defaultOptions initialState /\
    [MadeDir; WroteSchema usersFullSchema;
     WroteFlattened (flattenSchema [".buffer"; "__v"] usersFullSchema); ClosedClient] =
      ((if existsSync (mkHost false (Resolved tt) (Resolved tt) (Resolved tt) (Resolved tt))
        then [] else [MadeDir]) ++
       [WroteSchema (ownProps schema); WroteFlattened flattened; ClosedClient])%list.
Proof.
  apply (main_exit_0 initialState _
           (mkMongoClient (Resolved tt)
              (fun _ => memDb getFieldType [("users", usersDocs)]))
           "shop"
           (mkHost false (Resolved tt) (Resolved tt) (Resolved tt) (Resolved tt))
           _ (Resolved tt)); reflexivity.
Defined.

(** X19. A run of [main] in which the connection or the discovery fails
    rejects with that error, so the process exits with code [1]; it
    leaves no directory and no file behind, and it does not close the
    client. *)
Theorem main_fails_before_any_file (st : ClassState) (mongoClient : MongoClient)
    (databaseName : string) (host : Host) (e : Err) :
  clientConnect mongoClient = Rejected e \/
  (clientConnect mongoClient = Resolved tt /\
   generateSchemaForAllCollections (clientDb mongoClient databaseName) = Rejected e) ->
  fst (main st mongoClient databaseName host) = (Rejected e, []) /\
  exitCode (fst (fst (main st mongoClient databaseName host))) = 1.
Proof.
  unfold main, connect.
  intros [Hconnect|[Hconnect Hgenerate]]; rewrite Hconnect; cbn [database];
    [|rewrite Hgenerate]; split; reflexivity.
Qed.

Lemma main_fails_before_any_file_witness :
  fst (main initialState (mkMongoClient (Resolved tt) (fun _ => brokenDb)) "shop"
         (mkHost true (Resolved tt) (Resolved tt) (Resolved tt) (Resolved tt)))
    = (Rejected "cursor killed", []) /\
  exitCode
    (fst (fst (main initialState (mkMongoClient (Resolved tt) (fun _ => brokenDb)) "shop"
                 (mkHost true (Resolved tt) (Resolved tt) (Resolved tt) (Resolved tt)))))
    = 1.
Proof.
  apply main_fails_before_any_file. right. split; reflexivity.
Defined.

(** X20. In every run of [main], however it ends: where a flattened file
    was written, the effects of the run are, in this order, the directory
    if it was missing, the schema file, the flattened file, and the
    closing of the client if that went through; the flattened file holds
    the flattening of the own properties of the discovered schema, which
    is what the schema file holds; and the client is closed only in a run
    that resolves. *)
Theorem main_files_agree (st st' : ClassState) (mongoClient : MongoClient)
    (databaseName : string) (host : Host) (effects : list Effect) (outcome : Outcome unit) :
  main st mongoClient databaseName host = (outcome, effects, st') ->
  (forall flattened,
     In (WroteFlattened flattened) effects ->
     exists schema closing,
       generateSchemaForAllCollections (clientDb mongoClient databaseName)
         = Resolved schema /\
       flattenSchemaWith (filteredFields (defaultOptions st)) (ownProps schema)
         = Resolved flattened /\
       effects =
         ((if existsSync host then [] else [MadeDir]) ++
          [WroteSchema (ownProps schema); WroteFlattened flattened] ++ closing)%list /\
       (closing = [] \/ closing = [ClosedClient])) /\
  (In ClosedClient effects -> outcome = Resolved tt).
Proof.
  intros Hmain.
  destruct (main_cases _ _ _ _ _ _ _ Hmain)
    as [[-> _]|(schema & flat & _ & Hgen & _ & Hflat & _ & Hpersist)];
    [split; [intros ? []|intros []]|].
  destruct (persist_effects host (ownProps schema) flat) as (_ & Horder & Hclosed).
  rewrite Hpersist in Horder, Hclosed. cbn [fst snd] in Horder, Hclosed.
  split; [|exact Hclosed].
  intros flattened Hin. destruct (Horder flattened Hin) as [-> (closing & Heffects & Hclosing)].
  exists schema, closing. now repeat split.
Qed.

Lemma main_files_agree_witness :
  (forall flattened,
     In (WroteFlattened flattened)
        [WroteSchema usersFullSchema;
         WroteFlattened (flattenSchema [".buffer"; "__v"] usersFullSchema)] ->
     exists schema closing,
       generateSchemaForAllCollections
         (clientDb (mkMongoClient (Resolved tt)
                      (fun _ => memDb getFieldType [("users", usersDocs)])) "shop")
         = Resolved schema /\
       flattenSchemaWith (filteredFields (defaultOptions initialState)) (ownProps schema)
         = Resolved flattened /\
       [WroteSchema usersFullSchema;
        WroteFlattened (flattenSchema [".buffer"; "__v"] usersFullSchema)] =
         ((if existsSync (mkHost true (Resolved tt) (Resolved tt) (Resolved tt)
                            (Rejected "EBADF"))
           then [] else [MadeDir]) ++
          [WroteSchema (ownProps schema); WroteFlattened flattened] ++ closing)%list /\
       (closing = [] \/ closing = [ClosedClient])) /\
  (In ClosedClient
      [WroteSchema usersFullSchema;
       WroteFlattened (flattenSchema [".buffer"; "__v"] usersFullSchema)] ->
   Rejected "EBADF" = Resolved tt).
Proof.
  eapply (main_files_agree initialState _
           (mkMongoClient (Resolved tt)
              (fun _ => memDb getFieldType [("users", usersDocs)]))
           "shop"
           (mkHost true (Resolved tt) (Resolved tt) (Resolved tt) (Rejected "EBADF"))).
  reflexivity.
Defined.
